(** * KItemListHeader and KVersionControlPlugin::ItemVersion

    A shallow embedding of [src/kitemviews/kitemlistheader.cpp] (the column
    header of Dolphin's item views) and of the [ItemVersion] enumeration of
    [src/views/versioncontrol/kversioncontrolplugin.h].

    Conventions of the embedding:
    - [qreal] is a [double] in the source.  The module [Double] embeds the
      layout functions ([roleIndexAt], [isAboveRoleGrip], [paint],
      [hoverMoveEvent]) with the arithmetic of IEEE 754 binary64 as
      [SpecFloat] specifies it; every statement that relates a result to a
      sum of widths (the range of a column, the grip interval, a painted
      rectangle) is made there, on the sums the code accumulates.
      Outside [Double] a [qreal] is taken as an exact rational [Q]; that
      embedding carries the statements that do not depend on the value of a
      sum: the interaction state, the requests sent, the structure of what
      is painted, and order properties that rounding preserves.
    - [int] is modelled by [Z].  The only counters of the widget are bounded
      by [QList::count()], itself an [int], so they never wrap
      (see [roleIndexAt_bounds]).
    - [QByteArray] is a [string], [QList] a [list], [QHash] a [gmap];
      [QHash::value(key)] yields a default constructed value (0 for
      [qreal]) when the key is absent.
    - A member function that mutates the widget is a function from the
      widget to the new widget and the list of requests it sent to the
      toolkit ([update()], [setCursor()], ...).
    - What the toolkit supplies (style metrics, widget size, window state,
      font metrics) is gathered in the record [Toolkit]. *)

From Stdlib Require Import ZArith QArith Lia Lqa SpecFloat.
From stdpp Require Import base option list strings gmap.

Local Open Scope Z_scope.

(** ** Toolkit types *)

(** [qreal] and [QByteArray] are names for the types that model them. *)
Abbreviation qreal := Q (only parsing).
Abbreviation QByteArray := string (only parsing).
(** A [KItemModelBase*]: the address of the model.  The null pointer is
    [None] at the places that hold such a pointer. *)
Definition ModelPtr := N.

Record QPointF := mkQPointF { pt_x : qreal; pt_y : qreal }.
Record QRectF := mkQRectF
  { rf_x : qreal; rf_y : qreal; rf_width : qreal; rf_height : qreal }.
Record QRect := mkQRect
  { r_x : Z; r_y : Z; r_width : Z; r_height : Z }.

(** Conversion of a [qreal] to an [int]: the fractional part is discarded. *)
Definition qreal_to_int (q : qreal) : Z := Z.quot (Qnum q) (Zpos (Qden q)).

Inductive SectionPosition := Beginning | Middle | End | OnlyOneSection.

(** The fields of [QStyleOptionHeader] that [paintRole] fills in.  The state
    flags are kept as one boolean per [QStyle::State_*] flag. *)
Record QStyleOptionHeader := mkQStyleOptionHeader
  { opt_section : Z;
    opt_raised : bool;
    opt_enabled : bool;
    opt_active : bool;
    opt_mouseOver : bool;
    opt_sunken : bool;
    opt_rect : QRect;
    opt_position : SectionPosition;
    opt_text : string }.

(** What [paint] sends to the painter and the style. *)
Inductive PaintOp :=
| SetFont
| SetPen
| DrawHeader (option_ : QStyleOptionHeader)
| DrawHeaderEmptyArea (rect : QRect).

(** What a member function asks from the toolkit. *)
Inductive Request :=
| Update
| SetCursorSplitH
| UnsetCursor
| Accept
| Connect (model : ModelPtr)
| Disconnect (model : ModelPtr).

Record Toolkit := mkToolkit
  { (** [style()->pixelMetric(QStyle::PM_HeaderGripMargin)] *)
    headerGripMargin : Z;
    (** [isEnabled()] *)
    isEnabled : bool;
    (** [window() && window()->isActiveWindow()] *)
    isActiveWindow : bool;
    (** [size().width()] and [size().height()] *)
    size_width : qreal;
    size_height : qreal;
    (** [model->roleDescription(role)] *)
    roleDescription : ModelPtr -> QByteArray -> string;
    (** [option.fontMetrics.elidedText(text, Qt::ElideRight, width)] *)
    elidedText : string -> Z -> string;
    (** [QRectF::toRect()] *)
    toRect : QRectF -> QRect }.

(** ** The widget *)

Record KItemListHeader := mkKItemListHeader
  { m_model : option ModelPtr;
    m_visibleRoles : list QByteArray;
    m_visibleRolesWidths : gmap QByteArray qreal;
    m_hoveredRoleIndex : Z;
    m_pressedRoleIndex : Z;
    m_resizePressedRole : bool }.

(** [QHash<QByteArray, qreal>::value(role)] *)
Definition value (widths : gmap QByteArray qreal) (role : QByteArray) : qreal :=
  default 0%Q (widths !! role).

(** The constructor. *)
Definition init : KItemListHeader :=
  {| m_model := None;
     m_visibleRoles := [];
     m_visibleRolesWidths := ∅;
     m_hoveredRoleIndex := -1;
     m_pressedRoleIndex := -1;
     m_resizePressedRole := false |}.

Definition set_model (h : KItemListHeader) (m : option ModelPtr) :=
  {| m_model := m;
     m_visibleRoles := m_visibleRoles h;
     m_visibleRolesWidths := m_visibleRolesWidths h;
     m_hoveredRoleIndex := m_hoveredRoleIndex h;
     m_pressedRoleIndex := m_pressedRoleIndex h;
     m_resizePressedRole := m_resizePressedRole h |}.

Definition set_visibleRoles (h : KItemListHeader) (roles : list QByteArray) :=
  {| m_model := m_model h;
     m_visibleRoles := roles;
     m_visibleRolesWidths := m_visibleRolesWidths h;
     m_hoveredRoleIndex := m_hoveredRoleIndex h;
     m_pressedRoleIndex := m_pressedRoleIndex h;
     m_resizePressedRole := m_resizePressedRole h |}.

Definition set_visibleRolesWidths (h : KItemListHeader)
    (widths : gmap QByteArray qreal) :=
  {| m_model := m_model h;
     m_visibleRoles := m_visibleRoles h;
     m_visibleRolesWidths := widths;
     m_hoveredRoleIndex := m_hoveredRoleIndex h;
     m_pressedRoleIndex := m_pressedRoleIndex h;
     m_resizePressedRole := m_resizePressedRole h |}.

Definition set_hoveredRoleIndex (h : KItemListHeader) (i : Z) :=
  {| m_model := m_model h;
     m_visibleRoles := m_visibleRoles h;
     m_visibleRolesWidths := m_visibleRolesWidths h;
     m_hoveredRoleIndex := i;
     m_pressedRoleIndex := m_pressedRoleIndex h;
     m_resizePressedRole := m_resizePressedRole h |}.

Definition set_pressedRoleIndex (h : KItemListHeader) (i : Z) :=
  {| m_model := m_model h;
     m_visibleRoles := m_visibleRoles h;
     m_visibleRolesWidths := m_visibleRolesWidths h;
     m_hoveredRoleIndex := m_hoveredRoleIndex h;
     m_pressedRoleIndex := i;
     m_resizePressedRole := m_resizePressedRole h |}.

(** *** Hit test *)

(** The [foreach] loop of [roleIndexAt]: [index] and [x] are the loop
    variables, [roles] the roles still to visit. *)
Fixpoint roleIndexAt_loop (widths : gmap QByteArray qreal) (pos_x : qreal)
    (roles : list QByteArray) (index : Z) (x : qreal) : Z :=
  match roles with
  | [] => index
  | role :: rest =>
      let index := index + 1 in
      let x := (x + value widths role)%Q in
      if Qle_bool pos_x x then index
      else roleIndexAt_loop widths pos_x rest index x
  end.

Definition roleIndexAt (h : KItemListHeader) (pos : QPointF) : Z :=
  roleIndexAt_loop (m_visibleRolesWidths h) (pt_x pos) (m_visibleRoles h) (-1) 0%Q.

(** The [for] loop of [isAboveRoleGrip], [n] iterations from [i] on.
    [QList::at] is only defined inside the list: outside, the result is
    [None]. *)
Fixpoint isAboveRoleGrip_loop (h : KItemListHeader) (n : nat) (i : nat)
    (x : qreal) : option qreal :=
  match n with
  | O => Some x
  | S n' =>
      match m_visibleRoles h !! i with
      | None => None
      | Some role =>
          isAboveRoleGrip_loop h n' (S i)
            (x + value (m_visibleRolesWidths h) role)%Q
      end
  end.

Definition isAboveRoleGrip (tk : Toolkit) (h : KItemListHeader)
    (pos : QPointF) (roleIndex : Z) : option bool :=
  match isAboveRoleGrip_loop h (Z.to_nat (roleIndex + 1)) 0 0%Q with
  | None => None
  | Some x =>
      let grip := headerGripMargin tk in
      Some (Qle_bool (x - inject_Z grip) (pt_x pos) && Qle_bool (pt_x pos) x)
  end.

(** *** Painting *)

(** [paintRole].  It dereferences [m_model]: on a null model the result is
    [None]. *)
Definition paintRole (tk : Toolkit) (h : KItemListHeader)
    (role : QByteArray) (rect : QRectF) (orderIndex : Z) : option PaintOp :=
  match m_model h with
  | None => None
  | Some model =>
      let option_rect := toRect tk rect in
      let count := Z.of_nat (length (m_visibleRoles h)) in
      let position :=
        if count =? 1 then OnlyOneSection
        else if orderIndex =? 0 then Beginning
        else if orderIndex =? count - 1 then End
        else Middle in
      let text := roleDescription tk model role in
      let grip := headerGripMargin tk in
      Some (DrawHeader
        {| opt_section := orderIndex;
           opt_raised := true;
           opt_enabled := isEnabled tk;
           opt_active := isActiveWindow tk;
           opt_mouseOver := m_hoveredRoleIndex h =? orderIndex;
           opt_sunken := m_pressedRoleIndex h =? orderIndex;
           opt_rect := option_rect;
           opt_position := position;
           opt_text := elidedText tk text (r_width option_rect - grip) |})
  end.

(** The [foreach] loop of [paint]: the operations painted for [roles] and
    the final value of [x]. *)
Fixpoint paint_loop (tk : Toolkit) (h : KItemListHeader)
    (roles : list QByteArray) (x : qreal) (orderIndex : Z)
    : option (list PaintOp * qreal) :=
  match roles with
  | [] => Some ([], x)
  | role :: rest =>
      let roleWidth := value (m_visibleRolesWidths h) role in
      let rect := mkQRectF x 0%Q roleWidth (size_height tk) in
      match paintRole tk h role rect orderIndex with
      | None => None
      | Some op =>
          match paint_loop tk h rest (x + roleWidth)%Q (orderIndex + 1) with
          | None => None
          | Some (ops, x') => Some (op :: ops, x')
          end
      end
  end.

(** [paint]: everything sent to the painter, in order. *)
Definition paint (tk : Toolkit) (h : KItemListHeader) : option (list PaintOp) :=
  match m_model h with
  | None => Some []
  | Some _ =>
      match paint_loop tk h (m_visibleRoles h) 0%Q 0 with
      | None => None
      | Some (ops, x) =>
          let rect :=
            mkQRect (qreal_to_int x) 0
                    (qreal_to_int (size_width tk - x)%Q)
                    (qreal_to_int (size_height tk)) in
          Some ([SetFont; SetPen] ++ ops ++ [DrawHeaderEmptyArea rect])
      end
  end.

(** *** Member functions that change the widget

    Each returns the new widget and the requests sent to the toolkit.  The
    calls to the base class [QGraphicsWidget] are the toolkit's and are not
    part of the result. *)

Definition Result := (KItemListHeader * list Request)%type.

Definition setModel (h : KItemListHeader) (model : option ModelPtr) : Result :=
  if decide (m_model h = model) then (h, [])
  else
    let disc := match m_model h with Some m => [Disconnect m] | None => [] end in
    let conn := match model with Some m => [Connect m] | None => [] end in
    (set_model h model, disc ++ conn).

Definition setVisibleRoles (h : KItemListHeader) (roles : list QByteArray)
    : Result :=
  (set_visibleRoles h roles, [Update]).

Definition setVisibleRolesWidths (h : KItemListHeader)
    (rolesWidths : gmap QByteArray qreal) : Result :=
  (set_visibleRolesWidths h rolesWidths, [Update]).

Definition updatePressedRoleIndex (h : KItemListHeader) (pos : QPointF)
    : Result :=
  let pressedIndex := roleIndexAt h pos in
  if negb (m_pressedRoleIndex h =? pressedIndex)
  then (set_pressedRoleIndex h pressedIndex, [Update])
  else (h, []).

Definition updateHoveredRoleIndex (h : KItemListHeader) (pos : QPointF)
    : Result :=
  let hoverIndex := roleIndexAt h pos in
  if negb (m_hoveredRoleIndex h =? hoverIndex)
  then (set_hoveredRoleIndex h hoverIndex, [Update])
  else (h, []).

Definition mousePressEvent (h : KItemListHeader) (pos : QPointF) : Result :=
  let '(h', rs) := updatePressedRoleIndex h pos in
  (h', Accept :: rs).

Definition mouseReleaseEvent (h : KItemListHeader) : Result :=
  if negb (m_pressedRoleIndex h =? -1)
  then (set_pressedRoleIndex h (-1), [Update])
  else (h, []).

Definition mouseMoveEvent (h : KItemListHeader) (pos : QPointF) : Result :=
  updatePressedRoleIndex h pos.

Definition hoverEnterEvent (h : KItemListHeader) (pos : QPointF) : Result :=
  updateHoveredRoleIndex h pos.

Definition hoverLeaveEvent (h : KItemListHeader) : Result :=
  if negb (m_hoveredRoleIndex h =? -1)
  then (set_hoveredRoleIndex h (-1), [Update])
  else (h, []).

(** [hoverMoveEvent] calls [isAboveRoleGrip] and is undefined where that
    is. *)
Definition hoverMoveEvent (tk : Toolkit) (h : KItemListHeader) (pos : QPointF)
    : option Result :=
  let '(h', rs) := updateHoveredRoleIndex h pos in
  if 0 <=? m_hoveredRoleIndex h' then
    match isAboveRoleGrip tk h' pos (m_hoveredRoleIndex h') with
    | None => None
    | Some true => Some (h', rs ++ [SetCursorSplitH])
    | Some false => Some (h', rs ++ [UnsetCursor])
    end
  else Some (h', rs ++ [UnsetCursor]).

Definition slotSortRoleChanged (h : KItemListHeader)
    (current previous : QByteArray) : Result := (h, []).

Definition slotSortOrderChanged (h : KItemListHeader)
    (current previous : bool) : Result := (h, []).

(** *** The widget as a transition system *)

Inductive Call :=
| CallSetModel (model : option ModelPtr)
| CallSetVisibleRoles (roles : list QByteArray)
| CallSetVisibleRolesWidths (rolesWidths : gmap QByteArray qreal)
| CallPaint
| MousePress (pos : QPointF)
| MouseRelease
| MouseMove (pos : QPointF)
| HoverEnter (pos : QPointF)
| HoverLeave
| HoverMove (pos : QPointF)
| SortRoleChanged (current previous : QByteArray)
| SortOrderChanged (current previous : bool).

Definition step (tk : Toolkit) (h : KItemListHeader) (c : Call)
    : option Result :=
  match c with
  | CallSetModel model => Some (setModel h model)
  | CallSetVisibleRoles roles => Some (setVisibleRoles h roles)
  | CallSetVisibleRolesWidths ws => Some (setVisibleRolesWidths h ws)
  | CallPaint =>
      match paint tk h with Some _ => Some (h, []) | None => None end
  | MousePress pos => Some (mousePressEvent h pos)
  | MouseRelease => Some (mouseReleaseEvent h)
  | MouseMove pos => Some (mouseMoveEvent h pos)
  | HoverEnter pos => Some (hoverEnterEvent h pos)
  | HoverLeave => Some (hoverLeaveEvent h)
  | HoverMove pos => hoverMoveEvent tk h pos
  | SortRoleChanged c p => Some (slotSortRoleChanged h c p)
  | SortOrderChanged c p => Some (slotSortOrderChanged h c p)
  end.

(** The states the widget can be in after its construction. *)
Inductive reachable (tk : Toolkit) : KItemListHeader -> Prop :=
| reachable_init : reachable tk init
| reachable_step h c h' rs :
    reachable tk h -> step tk h c = Some (h', rs) -> reachable tk h'.

(** "none" is the index -1. *)
Definition none : Z := -1.

Definition validIndex (h : KItemListHeader) (i : Z) : Prop :=
  0 <= i < Z.of_nat (length (m_visibleRoles h)).

Definition noneOrValid (h : KItemListHeader) (i : Z) : Prop :=
  i = none \/ validIndex h i.

(** The invariant on the interaction state. *)
Definition interactionInv (h : KItemListHeader) : Prop :=
  noneOrValid h (m_hoveredRoleIndex h) /\ noneOrValid h (m_pressedRoleIndex h).

(** *** Layout, as the specification words it *)

Definition widthsOf (h : KItemListHeader) : list qreal :=
  map (value (m_visibleRolesWidths h)) (m_visibleRoles h).

Fixpoint sumWidths (ws : list qreal) : qreal :=
  match ws with
  | [] => 0%Q
  | w :: ws' => (w + sumWidths ws')%Q
  end.

(** *** ItemVersion *)

Module KVersionControlPlugin.

Inductive ItemVersion :=
| UnversionedVersion
| NormalVersion
| UpdateRequiredVersion
| LocallyModifiedVersion
| AddedVersion
| RemovedVersion
| ConflictingVersion
| LocallyModifiedUnstagedVersion
| IgnoredVersion
| MissingVersion.

(** The value the compiler gives each enumerator: none has an initialiser,
    so they count from 0 in the order of declaration. *)
Definition enumValue (v : ItemVersion) : Z :=
  match v with
  | UnversionedVersion => 0
  | NormalVersion => 1
  | UpdateRequiredVersion => 2
  | LocallyModifiedVersion => 3
  | AddedVersion => 4
  | RemovedVersion => 5
  | ConflictingVersion => 6
  | LocallyModifiedUnstagedVersion => 7
  | IgnoredVersion => 8
  | MissingVersion => 9
  end.

(** The enumerators in the order of their declaration. *)
Definition allItemVersions : list ItemVersion :=
  [ UnversionedVersion; NormalVersion; UpdateRequiredVersion;
    LocallyModifiedVersion; AddedVersion; RemovedVersion;
    ConflictingVersion; LocallyModifiedUnstagedVersion; IgnoredVersion;
    MissingVersion ].

End KVersionControlPlugin.

(** ** A running example: columns A:50, B:30, C:20, grip margin 4 *)

Definition exToolkit : Toolkit :=
  {| headerGripMargin := 4;
     isEnabled := true;
     isActiveWindow := true;
     size_width := 200%Q;
     size_height := 24%Q;
     roleDescription := fun _ role => role;
     elidedText := fun text _ => text;
     toRect := fun r =>
       mkQRect (qreal_to_int (rf_x r)) (qreal_to_int (rf_y r))
               (qreal_to_int (rf_width r)) (qreal_to_int (rf_height r)) |}.

Definition exWidths : gmap QByteArray qreal :=
  <["A" := 50%Q]> (<["B" := 30%Q]> (<["C" := 20%Q]> ∅)).

Definition exHeader : KItemListHeader :=
  {| m_model := Some 1%N;
     m_visibleRoles := ["A"; "B"; "C"];
     m_visibleRolesWidths := exWidths;
     m_hoveredRoleIndex := -1;
     m_pressedRoleIndex := -1;
     m_resizePressedRole := false |}.

Definition at_x (x : Q) : QPointF := mkQPointF x 0%Q.

(** A header with a visible role, "D", that has no width. *)
Definition exHeaderMissing : KItemListHeader :=
  set_visibleRoles exHeader ["A"; "D"; "C"].

(** One column, hovered, and then the list of roles replaced by the empty
    list. *)
Definition exHovered : KItemListHeader :=
  (hoverEnterEvent (setVisibleRoles init ["A"]).1 (at_x 0)).1.

Definition exStale : KItemListHeader :=
  (setVisibleRoles exHovered []).1.



(** The calls that are hover events, mouse events, pointer events. *)
Definition isHoverCall (c : Call) : bool :=
  match c with
  | HoverEnter _ | HoverLeave | HoverMove _ => true
  | _ => false
  end.

Definition isMouseCall (c : Call) : bool :=
  match c with
  | MousePress _ | MouseRelease | MouseMove _ => true
  | _ => false
  end.

Definition isPointerCall (c : Call) : bool := isHoverCall c || isMouseCall c.

(** Two width mappings that [QHash::value] cannot tell apart on the visible
    roles of [h]. *)
Definition sameVisibleValues (h : KItemListHeader)
    (w1 w2 : gmap QByteArray qreal) : Prop :=
  forall role, role ∈ m_visibleRoles h -> value w1 role = value w2 role.

(** In [w2] no visible role of [h] is narrower than in [w1]. *)
Definition widerVisibleValues (h : KItemListHeader)
    (w1 w2 : gmap QByteArray qreal) : Prop :=
  forall role, role ∈ m_visibleRoles h -> (value w1 role <= value w2 role)%Q.

(** The header sections among painted operations. *)
Definition isDrawHeader (op : PaintOp) : bool :=
  match op with DrawHeader _ => true | _ => false end.

Definition exWidthsWide : gmap QByteArray qreal := <["A" := 60%Q]> exWidths.

(** The position [paintRole] gives the section [i] of [count] sections. *)
Definition sectionPosition (count i : Z) : SectionPosition :=
  if count =? 1 then OnlyOneSection
  else if i =? 0 then Beginning
  else if i =? count - 1 then End
  else Middle.

(** The running example with the second column hovered, and the header
    section painted for that column. *)
Definition exHoveredB : KItemListHeader := set_hoveredRoleIndex exHeader 1.

Definition exSectionB : QStyleOptionHeader :=
  {| opt_section := 1;
     opt_raised := true;
     opt_enabled := true;
     opt_active := true;
     opt_mouseOver := true;
     opt_sunken := false;
     opt_rect := mkQRect 50 0 30 24;
     opt_position := Middle;
     opt_text := "B" |}.

(** ** The layout in double arithmetic

    In the source a [qreal] is a [double].  The module [Double] embeds the
    functions that add and compare widths with the arithmetic of IEEE 754
    binary64, as [SpecFloat] specifies it: a sum is rounded to the nearest
    double (ties to even), a comparison with a NaN is false, and the
    conversion to [int] is undefined outside the range of [int].  Every
    statement that relates a result to a sum of widths is made on this
    embedding, and the sums in it are the ones the code accumulates, from
    0 and from left to right. *)

Module Double.

Abbreviation qreal := spec_float (only parsing).

Definition prec : Z := 53.
Definition emax : Z := 1024.

(** The operations of the source on [qreal]. *)
Definition zero : qreal := S754_zero false.
Definition add (x y : qreal) : qreal := SFadd prec emax x y.
Definition sub (x y : qreal) : qreal := SFsub prec emax x y.
Definition leb (x y : qreal) : bool := SFleb x y.
Definition ltb (x y : qreal) : bool := SFltb x y.
Definition eqb (x y : qreal) : bool := SFeqb x y.

(** Conversion of an [int] to a [qreal]; it is exact, an [int] has 32
    bits. *)
Definition of_int (z : Z) : qreal := binary_normalize prec emax z 0 false.

(** The integer part of a finite [qreal]. *)
Definition truncate (x : qreal) : option Z :=
  match x with
  | S754_zero _ => Some 0
  | S754_finite s m e =>
      Some (cond_Zopp s (if 0 <=? e then Z.shiftl (Zpos m) e
                         else Z.shiftr (Zpos m) (- e)))
  | S754_infinity _ | S754_nan => None
  end.

(** Conversion of a [qreal] to an [int]: the fractional part is discarded.
    Where the integer part is not in the range of [int] (and for an
    infinity or a NaN) C++ leaves the conversion undefined; that is
    [None] here, whatever value a processor then yields. *)
Definition to_int (x : qreal) : option Z :=
  match truncate x with
  | Some z => if (- 2 ^ 31 <=? z) && (z <? 2 ^ 31) then Some z else None
  | None => None
  end.

(** A value of the binary64 format. *)
Definition isDouble (x : qreal) : bool := valid_binary prec emax x.

(** The exact value of a finite [qreal], for statements about what
    rounding does. *)
Definition toQ (x : qreal) : Q :=
  match x with
  | S754_finite s m e =>
      if 0 <=? e then inject_Z (cond_Zopp s (Z.shiftl (Zpos m) e))
      else Qmake (cond_Zopp s (Zpos m)) (Pos.shiftl 1 (Z.to_N (- e)))
  | _ => 0%Q
  end.

Record QPointF := mkQPointF { pt_x : qreal; pt_y : qreal }.
Record QRectF := mkQRectF
  { rf_x : qreal; rf_y : qreal; rf_width : qreal; rf_height : qreal }.

Record Toolkit := mkToolkit
  { (** [style()->pixelMetric(QStyle::PM_HeaderGripMargin)] *)
    headerGripMargin : Z;
    (** [isEnabled()] *)
    isEnabled : bool;
    (** [window() && window()->isActiveWindow()] *)
    isActiveWindow : bool;
    (** [size().width()] and [size().height()] *)
    size_width : qreal;
    size_height : qreal;
    (** [model->roleDescription(role)] *)
    roleDescription : ModelPtr -> QByteArray -> string;
    (** [option.fontMetrics.elidedText(text, Qt::ElideRight, width)] *)
    elidedText : string -> Z -> string;
    (** [QRectF::toRect()] *)
    toRect : QRectF -> QRect }.

Record KItemListHeader := mkKItemListHeader
  { m_model : option ModelPtr;
    m_visibleRoles : list QByteArray;
    m_visibleRolesWidths : gmap QByteArray qreal;
    m_hoveredRoleIndex : Z;
    m_pressedRoleIndex : Z;
    m_resizePressedRole : bool }.

(** [QHash<QByteArray, qreal>::value(role)]: the default constructed
    [qreal] is 0.0. *)
Definition value (widths : gmap QByteArray qreal) (role : QByteArray) : qreal :=
  default zero (widths !! role).

Definition set_visibleRoles (h : KItemListHeader) (roles : list QByteArray) :=
  {| m_model := m_model h;
     m_visibleRoles := roles;
     m_visibleRolesWidths := m_visibleRolesWidths h;
     m_hoveredRoleIndex := m_hoveredRoleIndex h;
     m_pressedRoleIndex := m_pressedRoleIndex h;
     m_resizePressedRole := m_resizePressedRole h |}.

Definition set_hoveredRoleIndex (h : KItemListHeader) (i : Z) :=
  {| m_model := m_model h;
     m_visibleRoles := m_visibleRoles h;
     m_visibleRolesWidths := m_visibleRolesWidths h;
     m_hoveredRoleIndex := i;
     m_pressedRoleIndex := m_pressedRoleIndex h;
     m_resizePressedRole := m_resizePressedRole h |}.

(** The [foreach] loop of [roleIndexAt]. *)
Fixpoint roleIndexAt_loop (widths : gmap QByteArray qreal) (pos_x : qreal)
    (roles : list QByteArray) (index : Z) (x : qreal) : Z :=
  match roles with
  | [] => index
  | role :: rest =>
      let index := index + 1 in
      let x := add x (value widths role) in
      if leb pos_x x then index
      else roleIndexAt_loop widths pos_x rest index x
  end.

Definition roleIndexAt (h : KItemListHeader) (pos : QPointF) : Z :=
  roleIndexAt_loop (m_visibleRolesWidths h) (pt_x pos) (m_visibleRoles h) (-1) zero.

(** The [for] loop of [isAboveRoleGrip], [n] iterations from [i] on;
    [None] where [QList::at] is outside the list. *)
Fixpoint isAboveRoleGrip_loop (h : KItemListHeader) (n : nat) (i : nat)
    (x : qreal) : option qreal :=
  match n with
  | O => Some x
  | S n' =>
      match m_visibleRoles h !! i with
      | None => None
      | Some role =>
          isAboveRoleGrip_loop h n' (S i)
            (add x (value (m_visibleRolesWidths h) role))
      end
  end.

Definition isAboveRoleGrip (tk : Toolkit) (h : KItemListHeader)
    (pos : QPointF) (roleIndex : Z) : option bool :=
  match isAboveRoleGrip_loop h (Z.to_nat (roleIndex + 1)) 0 zero with
  | None => None
  | Some x =>
      let grip := headerGripMargin tk in
      Some (leb (sub x (of_int grip)) (pt_x pos) && leb (pt_x pos) x)
  end.

(** [paintRole]; [None] on a null model. *)
Definition paintRole (tk : Toolkit) (h : KItemListHeader)
    (role : QByteArray) (rect : QRectF) (orderIndex : Z) : option PaintOp :=
  match m_model h with
  | None => None
  | Some model =>
      let option_rect := toRect tk rect in
      let count := Z.of_nat (length (m_visibleRoles h)) in
      let position :=
        if count =? 1 then OnlyOneSection
        else if orderIndex =? 0 then Beginning
        else if orderIndex =? count - 1 then End
        else Middle in
      let text := roleDescription tk model role in
      let grip := headerGripMargin tk in
      Some (DrawHeader
        {| opt_section := orderIndex;
           opt_raised := true;
           opt_enabled := isEnabled tk;
           opt_active := isActiveWindow tk;
           opt_mouseOver := m_hoveredRoleIndex h =? orderIndex;
           opt_sunken := m_pressedRoleIndex h =? orderIndex;
           opt_rect := option_rect;
           opt_position := position;
           opt_text := elidedText tk text (r_width option_rect - grip) |})
  end.

(** The [foreach] loop of [paint]: the operations painted for [roles] and
    the final value of [x]. *)
Fixpoint paint_loop (tk : Toolkit) (h : KItemListHeader)
    (roles : list QByteArray) (x : qreal) (orderIndex : Z)
    : option (list PaintOp * qreal) :=
  match roles with
  | [] => Some ([], x)
  | role :: rest =>
      let roleWidth := value (m_visibleRolesWidths h) role in
      let rect := mkQRectF x zero roleWidth (size_height tk) in
      match paintRole tk h role rect orderIndex with
      | None => None
      | Some op =>
          match paint_loop tk h rest (add x roleWidth) (orderIndex + 1) with
          | None => None
          | Some (ops, x') => Some (op :: ops, x')
          end
      end
  end.

(** [paint]: everything sent to the painter, in order; [None] where a
    conversion to [int] in [QRect(x, 0, size().width() - x,
    size().height())] is undefined. *)
Definition paint (tk : Toolkit) (h : KItemListHeader) : option (list PaintOp) :=
  match m_model h with
  | None => Some []
  | Some _ =>
      match paint_loop tk h (m_visibleRoles h) zero 0 with
      | None => None
      | Some (ops, x) =>
          match to_int x, to_int (sub (size_width tk) x),
                to_int (size_height tk) with
          | Some rx, Some rw, Some rh =>
              Some ([SetFont; SetPen] ++ ops
                    ++ [DrawHeaderEmptyArea (mkQRect rx 0 rw rh)])
          | _, _, _ => None
          end
      end
  end.

Definition setVisibleRoles (h : KItemListHeader) (roles : list QByteArray)
    : KItemListHeader * list Request :=
  (set_visibleRoles h roles, [Update]).

Definition updateHoveredRoleIndex (h : KItemListHeader) (pos : QPointF)
    : KItemListHeader * list Request :=
  let hoverIndex := roleIndexAt h pos in
  if negb (m_hoveredRoleIndex h =? hoverIndex)
  then (set_hoveredRoleIndex h hoverIndex, [Update])
  else (h, []).

Definition hoverEnterEvent (h : KItemListHeader) (pos : QPointF)
    : KItemListHeader * list Request :=
  updateHoveredRoleIndex h pos.

Definition hoverMoveEvent (tk : Toolkit) (h : KItemListHeader) (pos : QPointF)
    : option (KItemListHeader * list Request) :=
  let '(h', rs) := updateHoveredRoleIndex h pos in
  if 0 <=? m_hoveredRoleIndex h' then
    match isAboveRoleGrip tk h' pos (m_hoveredRoleIndex h') with
    | None => None
    | Some true => Some (h', rs ++ [SetCursorSplitH])
    | Some false => Some (h', rs ++ [UnsetCursor])
    end
  else Some (h', rs ++ [UnsetCursor]).

Definition validIndex (h : KItemListHeader) (i : Z) : Prop :=
  0 <= i < Z.of_nat (length (m_visibleRoles h)).

(** *** Layout, as the specification words it, in the arithmetic of the
    code *)

Definition widthsOf (h : KItemListHeader) : list qreal :=
  map (value (m_visibleRolesWidths h)) (m_visibleRoles h).

(** The sum of [ws] accumulated from [x], from left to right. *)
Definition sumFrom (x : qreal) (ws : list qreal) : qreal := fold_left add ws x.

(** Sum of the widths of the columns 0..i-1. *)
Definition leftEdge (h : KItemListHeader) (i : nat) : qreal :=
  sumFrom zero (take i (widthsOf h)).

(** Sum of the widths of the columns 0..i inclusive. *)
Definition rightEdge (h : KItemListHeader) (i : nat) : qreal :=
  sumFrom zero (take (S i) (widthsOf h)).

Definition totalWidth (h : KItemListHeader) : qreal :=
  sumFrom zero (widthsOf h).




(** *** Running examples *)

(** 0.5, 0.1, 0.2 and 0.30000000000000004 as doubles. *)
Definition half : qreal := S754_finite false 4503599627370496 (-53).
Definition tenth : qreal := S754_finite false 7205759403792794 (-56).
Definition fifth : qreal := S754_finite false 7205759403792794 (-55).
Definition threeTenthsUp : qreal := S754_finite false 5404319552844596 (-54).

(** Rounding of a non-negative coordinate to the nearest [int]. *)
Definition exRound (d : qreal) : Z := default 0 (to_int (add d half)).

Definition exToolkit : Toolkit :=
  {| headerGripMargin := 4;
     isEnabled := true;
     isActiveWindow := true;
     size_width := of_int 200;
     size_height := of_int 24;
     roleDescription := fun _ role => role;
     elidedText := fun text _ => text;
     toRect := fun r =>
       mkQRect (exRound (rf_x r)) (exRound (rf_y r))
               (exRound (rf_width r)) (exRound (rf_height r)) |}.

(** The toolkit with a widget of width 80, and with one too wide for an
    [int]. *)
Definition exToolkitNarrow : Toolkit :=
  {| headerGripMargin := headerGripMargin exToolkit;
     isEnabled := isEnabled exToolkit;
     isActiveWindow := isActiveWindow exToolkit;
     size_width := of_int 80;
     size_height := size_height exToolkit;
     roleDescription := roleDescription exToolkit;
     elidedText := elidedText exToolkit;
     toRect := toRect exToolkit |}.

Definition exToolkitHuge : Toolkit :=
  {| headerGripMargin := headerGripMargin exToolkit;
     isEnabled := isEnabled exToolkit;
     isActiveWindow := isActiveWindow exToolkit;
     size_width := of_int 3000000000;
     size_height := size_height exToolkit;
     roleDescription := roleDescription exToolkit;
     elidedText := elidedText exToolkit;
     toRect := toRect exToolkit |}.

Definition at_x (x : qreal) : QPointF := mkQPointF x zero.

(** Columns A:50, B:30, C:20. *)
Definition exHeader : KItemListHeader :=
  {| m_model := Some 1%N;
     m_visibleRoles := ["A"; "B"; "C"];
     m_visibleRolesWidths :=
       <["A" := of_int 50]> (<["B" := of_int 30]> (<["C" := of_int 20]> ∅));
     m_hoveredRoleIndex := -1;
     m_pressedRoleIndex := -1;
     m_resizePressedRole := false |}.

(** Columns A:0.1, B:0.2 and D without a width. *)
Definition exTenths : KItemListHeader :=
  {| m_model := Some 1%N;
     m_visibleRoles := ["A"; "B"; "D"];
     m_visibleRolesWidths := <["A" := tenth]> (<["B" := fifth]> ∅);
     m_hoveredRoleIndex := -1;
     m_pressedRoleIndex := -1;
     m_resizePressedRole := false |}.

(** Columns A:1e16, B:1, C:1: the two small widths are lost in the sum. *)
Definition exLarge : KItemListHeader :=
  {| m_model := Some 1%N;
     m_visibleRoles := ["A"; "B"; "C"];
     m_visibleRolesWidths :=
       <["A" := of_int 10000000000000000]>
         (<["B" := of_int 1]> (<["C" := of_int 1]> ∅));
     m_hoveredRoleIndex := -1;
     m_pressedRoleIndex := -1;
     m_resizePressedRole := false |}.

(** One column of width 3e9, more than an [int] holds. *)
Definition exWide : KItemListHeader :=
  {| m_model := Some 1%N;
     m_visibleRoles := ["A"];
     m_visibleRolesWidths := <["A" := of_int 3000000000]> ∅;
     m_hoveredRoleIndex := -1;
     m_pressedRoleIndex := -1;
     m_resizePressedRole := false |}.

End Double.

(** ** Facts about rationals and the layout sums *)

Ltac q_closed := vm_compute; first [ reflexivity | discriminate | intro; discriminate ].

Lemma Qle_bool_false (a b : Q) : Qle_bool a b = false -> (b < a)%Q.
Proof.
  intros E. apply Qnot_le_lt. intros Hle.
  apply Qle_bool_iff in Hle. congruence.
Qed.

(** ** The loop of [roleIndexAt] *)

Section RoleIndexAtLoop.
Variable widths : gmap QByteArray qreal.
Variable p : qreal.

Let ws (roles : list QByteArray) : list qreal := map (value widths) roles.
Let loop := roleIndexAt_loop widths p.

(** The result lies between the first and the last index visited. *)
Lemma roleIndexAt_loop_bounds roles index x :
  roles <> [] ->
  index + 1 <= loop roles index x <= index + Z.of_nat (length roles).
Proof.
  subst loop. revert index x.
  induction roles as [|role rest IH]; intros index x Hne; [done|].
  simpl. destruct (Qle_bool p (x + value widths role)).
  - lia.
  - destruct rest as [|role' rest'].
    + simpl. lia.
    + specialize (IH (index + 1) (x + value widths role)%Q ltac:(done)).
      simpl length in *. lia.
Qed.
End RoleIndexAtLoop.

(** The index is "none" or an index of the list, for any widths. *)
Lemma roleIndexAt_bounds (h : KItemListHeader) (pos : QPointF) :
  -1 <= roleIndexAt h pos < Z.of_nat (length (m_visibleRoles h)).
Proof.
  unfold roleIndexAt. destruct (m_visibleRoles h) as [|role rest] eqn:E.
  - simpl. lia.
  - pose proof (roleIndexAt_loop_bounds (m_visibleRolesWidths h) (pt_x pos)
                  (role :: rest) (-1) 0%Q ltac:(done)).
    lia.
Qed.

Lemma roleIndexAt_noneOrValid (h : KItemListHeader) (pos : QPointF) :
  noneOrValid h (roleIndexAt h pos).
Proof.
  pose proof (roleIndexAt_bounds h pos).
  unfold noneOrValid, validIndex, none.
  destruct (decide (roleIndexAt h pos = -1)); [by left | right; lia].
Qed.

(** The loop is monotone in the pointer position, for any widths. *)
Lemma roleIndexAt_loop_mono (widths : gmap QByteArray qreal) (p1 p2 : qreal)
    (roles : list QByteArray) (index : Z) (x : qreal) :
  (p1 <= p2)%Q ->
  roleIndexAt_loop widths p1 roles index x
  <= roleIndexAt_loop widths p2 roles index x.
Proof.
  intros Hp. revert index x.
  induction roles as [|role rest IH]; intros index x; simpl; [lia|].
  destruct (Qle_bool p2 (x + value widths role)) eqn:E2.
  - apply Qle_bool_iff in E2.
    assert (E1 : Qle_bool p1 (x + value widths role) = true)
      by (apply Qle_bool_iff; lra).
    rewrite E1. lia.
  - destruct (Qle_bool p1 (x + value widths role)) eqn:E1; [|apply IH].
    destruct rest as [|role' rest']; [simpl; lia|].
    pose proof (roleIndexAt_loop_bounds widths p2 (role' :: rest') (index + 1)
                  (x + value widths role)%Q ltac:(done)).
    lia.
Qed.

(** ** Hit test: the claims *)

(** C4.  On an empty list of visible roles [roleIndexAt] returns "none",
    whatever the pointer position. *)
Theorem roleIndexAt_empty (h : KItemListHeader) (pos : QPointF) :
  m_visibleRoles h = [] -> roleIndexAt h pos = none.
Proof. intros E. unfold roleIndexAt. rewrite E. reflexivity. Qed.

Lemma roleIndexAt_empty_witness : roleIndexAt init (at_x 7) = none.
Proof. apply (roleIndexAt_empty init (at_x 7)). reflexivity. Defined.

(** C7.  For a fixed list of roles and fixed widths, the index returned by
    [roleIndexAt] does not decrease when the pointer position increases.
    (This holds for any widths, non-negative or not.) *)
Theorem roleIndexAt_mono (h : KItemListHeader) (pos1 pos2 : QPointF) :
  (pt_x pos1 <= pt_x pos2)%Q ->
  roleIndexAt h pos1 <= roleIndexAt h pos2.
Proof. intros Hp. unfold roleIndexAt. by apply roleIndexAt_loop_mono. Qed.

Lemma roleIndexAt_mono_witness :
  roleIndexAt exHeader (at_x 50) <= roleIndexAt exHeader (at_x 51).
Proof. apply (roleIndexAt_mono exHeader (at_x 50) (at_x 51)). q_closed. Defined.

(** ** Resize grip *)

(** Inside the list, the loop of [isAboveRoleGrip] adds the widths of the
    [n] columns from [i] on. *)
Lemma isAboveRoleGrip_loop_sum (h : KItemListHeader) (n i : nat) (x : qreal) :
  (i + n <= length (m_visibleRoles h))%nat ->
  exists x' : qreal,
    isAboveRoleGrip_loop h n i x = Some x' /\
    (x' == x + sumWidths (take n (drop i (widthsOf h))))%Q.
Proof.
  revert i x. induction n as [|n IH]; intros i x Hlen.
  - exists x. split; [done|]. rewrite take_0. simpl. lra.
  - destruct (lookup_lt_is_Some_2 (m_visibleRoles h) i ltac:(lia)) as [role Hrole].
    simpl. rewrite Hrole.
    destruct (IH (S i) (x + value (m_visibleRolesWidths h) role)%Q ltac:(lia))
      as (x' & Hx' & Hsum).
    exists x'. split; [done|].
    assert (Hw : widthsOf h !! i = Some (value (m_visibleRolesWidths h) role)).
    { unfold widthsOf. change (map ?f ?l) with (f <$> l).
      by rewrite list_lookup_fmap, Hrole. }
    rewrite (drop_S _ _ _ Hw). rewrite firstn_cons. simpl sumWidths.
    lra.
Qed.

Lemma isAboveRoleGrip_defined (tk : Toolkit) (h : KItemListHeader)
    (pos : QPointF) (roleIndex : Z) :
  validIndex h roleIndex -> is_Some (isAboveRoleGrip tk h pos roleIndex).
Proof.
  intros [H0 Hlt]. unfold isAboveRoleGrip.
  destruct (isAboveRoleGrip_loop_sum h (Z.to_nat (roleIndex + 1)) 0 0%Q)
    as (x & -> & _); [lia | done].
Qed.

(** ** Interaction state *)

Lemma interactionInv_init : interactionInv init.
Proof. split; by left. Qed.



(** After [updateHoveredRoleIndex] the hovered index is the one under the
    pointer, and the list of roles is the same. *)
Lemma updateHoveredRoleIndex_hovered (h : KItemListHeader) (pos : QPointF) :
  m_hoveredRoleIndex (updateHoveredRoleIndex h pos).1 = roleIndexAt h pos /\
  m_visibleRoles (updateHoveredRoleIndex h pos).1 = m_visibleRoles h.
Proof.
  unfold updateHoveredRoleIndex.
  destruct (m_hoveredRoleIndex h =? roleIndexAt h pos) eqn:E; simpl; [|done].
  apply Z.eqb_eq in E. done.
Qed.

Lemma hoverMoveEvent_defined (tk : Toolkit) (h : KItemListHeader) (pos : QPointF) :
  exists rs, hoverMoveEvent tk h pos = Some ((updateHoveredRoleIndex h pos).1, rs).
Proof.
  unfold hoverMoveEvent.
  destruct (updateHoveredRoleIndex_hovered h pos) as [Hi Hr].
  destruct (updateHoveredRoleIndex h pos) as [h' rs]. simpl in *.
  destruct (0 <=? m_hoveredRoleIndex h') eqn:E; [|by eexists].
  apply Z.leb_le in E.
  destruct (isAboveRoleGrip_defined tk h' pos (m_hoveredRoleIndex h')) as [b Hb].
  { pose proof (roleIndexAt_bounds h pos). unfold validIndex.
    rewrite Hr, Hi. lia. }
  rewrite Hb. destruct b; by eexists.
Qed.

(** [paint] never dereferences a null model and never fails. *)
Lemma paint_loop_defined (tk : Toolkit) (h : KItemListHeader)
    (roles : list QByteArray) (x : qreal) (orderIndex : Z) :
  is_Some (m_model h) -> is_Some (paint_loop tk h roles x orderIndex).
Proof.
  intros [m Hm]. revert x orderIndex.
  induction roles as [|role rest IH]; intros x orderIndex; simpl; [done|].
  unfold paintRole. rewrite Hm.
  destruct (IH (x + value (m_visibleRolesWidths h) role)%Q (orderIndex + 1))
    as [[ops x'] ->].
  done.
Qed.

Lemma paint_defined (tk : Toolkit) (h : KItemListHeader) : is_Some (paint tk h).
Proof.
  unfold paint. destruct (m_model h) as [m|] eqn:Hm; [|done].
  destruct (paint_loop_defined tk h (m_visibleRoles h) 0%Q 0) as [[ops x] ->];
    [by rewrite Hm | done].
Qed.

Lemma step_defined (tk : Toolkit) (h : KItemListHeader) (c : Call) :
  is_Some (step tk h c).
Proof.
  destruct c; simpl; try done.
  - destruct (paint_defined tk h) as [ops ->]. done.
  - destruct (hoverMoveEvent_defined tk h pos) as [rs ->]. done.
Qed.





(** C6.  [hoverLeaveEvent] sets the hovered index to "none" whatever it
    was, changes nothing else, and requests a redraw exactly when the
    hovered index was not "none" before. *)
Theorem hoverLeaveEvent_resets (h : KItemListHeader) :
  m_hoveredRoleIndex (hoverLeaveEvent h).1 = none /\
  (hoverLeaveEvent h).1 = set_hoveredRoleIndex h none /\
  (hoverLeaveEvent h).2 =
    (if decide (m_hoveredRoleIndex h = none) then [] else [Update]).
Proof.
  unfold hoverLeaveEvent, none.
  destruct (decide (m_hoveredRoleIndex h = -1)) as [E|E].
  - rewrite E. simpl. destruct h; simpl in *. by subst.
  - apply Z.eqb_neq in E. rewrite E. done.
Qed.

Example hoverLeaveEvent_exHovered :
  m_hoveredRoleIndex exHovered = 0 /\
  hoverLeaveEvent exHovered = (set_hoveredRoleIndex exHovered (-1), [Update]).
Proof. split; reflexivity. Qed.

Example hoverLeaveEvent_init : hoverLeaveEvent init = (init, []).
Proof. reflexivity. Qed.

(** ** Painting and missing widths *)








(** With the roles A, D, C and no width for D, D is the empty column
    between 50 and 50: no pointer position resolves to it, and its grip is
    the one of A. *)
Example roleIndexAt_exHeaderMissing :
  map (fun x => roleIndexAt exHeaderMissing (at_x x)) [50%Q; 51%Q; 70%Q; 71%Q]
  = [0; 2; 2; 2].
Proof. reflexivity. Qed.

Example isAboveRoleGrip_exHeaderMissing :
  isAboveRoleGrip exToolkit exHeaderMissing (at_x 48) 1 = Some true.
Proof. reflexivity. Qed.

(** C10.  Without a model [paint] returns at once: nothing is sent to the
    painter, neither a header section nor the empty area.  So whenever
    [paint] sends something, a model is set ([paint_output_has_model]). *)
Theorem paint_without_model (tk : Toolkit) (h : KItemListHeader) :
  m_model h = None -> paint tk h = Some [].
Proof. intros E. unfold paint. by rewrite E. Qed.

Lemma paint_without_model_witness :
  m_model exStale = None /\ paint exToolkit exStale = Some [].
Proof.
  split; [reflexivity|].
  apply (paint_without_model exToolkit exStale). reflexivity.
Defined.

Lemma paint_output_has_model (tk : Toolkit) (h : KItemListHeader)
    (ops : list PaintOp) :
  paint tk h = Some ops -> ops <> [] -> is_Some (m_model h).
Proof.
  unfold paint. destruct (m_model h) as [m|]; [done|].
  intros [= <-] Hne. done.
Qed.

(** With a model the empty area is always painted, also without roles. *)
Example paint_model_no_roles :
  paint exToolkit (set_visibleRoles exHeader [])
  = Some [SetFont; SetPen; DrawHeaderEmptyArea (mkQRect 0 0 200 24)].
Proof. reflexivity. Qed.

(** ** ItemVersion *)

(** C8.  [ItemVersion] has exactly ten values, and in the order of their
    declaration they are: unversioned, normal, update required, locally
    modified, added, removed, conflicting, locally modified unstaged,
    ignored, missing. *)
Theorem itemVersion_ten_values :
  (forall v : KVersionControlPlugin.ItemVersion,
     v ∈ KVersionControlPlugin.allItemVersions)
  /\ NoDup KVersionControlPlugin.allItemVersions
  /\ length KVersionControlPlugin.allItemVersions = 10%nat
  /\ map KVersionControlPlugin.enumValue KVersionControlPlugin.allItemVersions
     = [0; 1; 2; 3; 4; 5; 6; 7; 8; 9]
  /\ KVersionControlPlugin.allItemVersions
     = [ KVersionControlPlugin.UnversionedVersion;
         KVersionControlPlugin.NormalVersion;
         KVersionControlPlugin.UpdateRequiredVersion;
         KVersionControlPlugin.LocallyModifiedVersion;
         KVersionControlPlugin.AddedVersion;
         KVersionControlPlugin.RemovedVersion;
         KVersionControlPlugin.ConflictingVersion;
         KVersionControlPlugin.LocallyModifiedUnstagedVersion;
         KVersionControlPlugin.IgnoredVersion;
         KVersionControlPlugin.MissingVersion ].
Proof.
  split; [|split; [|split; [|split]]]; try reflexivity.
  - intros v. unfold KVersionControlPlugin.allItemVersions.
    destruct v; rewrite ?elem_of_cons; tauto.
  - unfold KVersionControlPlugin.allItemVersions.
    repeat (apply NoDup_cons; split;
            [rewrite ?elem_of_cons, elem_of_nil; intuition discriminate|]).
    apply NoDup_nil_2.
Qed.

(** * Further properties of the header *)

(** ** Hit test *)

Lemma sumWidths_app (ws1 ws2 : list qreal) :
  (sumWidths (ws1 ++ ws2) == sumWidths ws1 + sumWidths ws2)%Q.
Proof.
  induction ws1 as [|w ws1 IH]; simpl; [lra|]. rewrite IH. lra.
Qed.

Lemma sumWidths_take_S (ws : list qreal) (i : nat) (w : qreal) :
  ws !! i = Some w ->
  (sumWidths (take (S i) ws) == sumWidths (take i ws) + w)%Q.
Proof.
  intros Hw. rewrite (take_S_r _ _ _ Hw), sumWidths_app. simpl. lra.
Qed.

(** What the loop of [roleIndexAt] returns, for any widths: it stops at the
    first role whose cumulative right edge reaches the pointer, and at the
    last role if there is none. *)
Lemma roleIndexAt_loop_spec (widths : gmap QByteArray qreal) (p : qreal)
    (roles : list QByteArray) (index : Z) (x : qreal) :
  roles <> [] ->
  exists j : nat,
    (j < length roles)%nat /\
    roleIndexAt_loop widths p roles index x = index + 1 + Z.of_nat j /\
    (forall j' : nat, (j' < j)%nat ->
       (x + sumWidths (take (S j') (map (value widths) roles)) < p)%Q) /\
    ((p <= x + sumWidths (take (S j) (map (value widths) roles)))%Q
     \/ S j = length roles).
Proof.
  revert index x.
  induction roles as [|role rest IH]; intros index x Hne; [done|].
  simpl roleIndexAt_loop.
  destruct (Qle_bool p (x + value widths role)) eqn:E.
  - apply Qle_bool_iff in E. exists 0%nat. simpl.
    split; [lia|]. split; [lia|]. split; [intros j' Hj'; lia|].
    left. lra.
  - apply Qle_bool_false in E.
    destruct rest as [|role' rest'].
    + exists 0%nat. simpl. split; [lia|]. split; [lia|].
      split; [intros j' Hj'; lia | by right].
    + destruct (IH (index + 1) (x + value widths role)%Q ltac:(done))
        as (j & Hlt & Hj & Hbelow & Hstop).
      exists (S j). split; [simpl in *; lia|]. split; [lia|]. split.
      * intros [|j'] Hj'; simpl; [lra|].
        specialize (Hbelow j' ltac:(lia)). simpl in Hbelow. lra.
      * destruct Hstop as [Hstop | Hstop]; [left | right; simpl in *; lia].
        change (take (S (S j)) (map (value widths) (role :: role' :: rest')))
          with (value widths role
                :: take (S j) (map (value widths) (role' :: rest'))).
        simpl sumWidths. simpl in Hstop. lra.
Qed.

(** X2.  A column of width 0 that is neither the first nor the last one is
    never the result of [roleIndexAt], wherever the pointer is and whatever
    the other widths are. *)
Theorem roleIndexAt_skips_empty_column (h : KItemListHeader) (pos : QPointF)
    (i : nat) (role : QByteArray) :
  m_visibleRoles h !! i = Some role ->
  (value (m_visibleRolesWidths h) role == 0)%Q ->
  (0 < i)%nat ->
  (S i < length (m_visibleRoles h))%nat ->
  roleIndexAt h pos <> Z.of_nat i.
Proof.
  intros Hrole Hzero Hfirst Hlast Hres. unfold roleIndexAt in Hres.
  destruct (roleIndexAt_loop_spec (m_visibleRolesWidths h) (pt_x pos)
              (m_visibleRoles h) (-1) 0%Q) as (j & Hlt & Hj & Hbelow & Hstop).
  { intros E. rewrite E in Hrole. done. }
  assert (j = i) as -> by lia.
  destruct Hstop as [Hstop | Hstop]; [|lia].
  destruct i as [|i]; [lia|].
  specialize (Hbelow i ltac:(lia)).
  assert (Hw : map (value (m_visibleRolesWidths h)) (m_visibleRoles h) !! S i
               = Some (value (m_visibleRolesWidths h) role)).
  { change (map ?f ?l) with (f <$> l). by rewrite list_lookup_fmap, Hrole. }
  rewrite (sumWidths_take_S _ _ _ Hw) in Hstop. lra.
Qed.

Lemma roleIndexAt_skips_empty_column_witness :
  roleIndexAt exHeaderMissing (at_x 50) <> 1
  /\ roleIndexAt exHeaderMissing (at_x (101#2)) <> 1.
Proof.
  split.
  - apply (roleIndexAt_skips_empty_column exHeaderMissing (at_x 50) 1 "D");
      [reflexivity | reflexivity | lia | simpl; lia].
  - apply (roleIndexAt_skips_empty_column exHeaderMissing (at_x (101#2)) 1 "D");
      [reflexivity | reflexivity | lia | simpl; lia].
Defined.

Lemma roleIndexAt_loop_wider (w1 w2 : gmap QByteArray qreal) (p : qreal)
    (roles : list QByteArray) (index : Z) (x1 x2 : qreal) :
  (forall role, role ∈ roles -> (value w1 role <= value w2 role)%Q) ->
  (x1 <= x2)%Q ->
  roleIndexAt_loop w2 p roles index x2 <= roleIndexAt_loop w1 p roles index x1.
Proof.
  revert index x1 x2.
  induction roles as [|role rest IH]; intros index x1 x2 Hw Hx; simpl; [lia|].
  pose proof (Hw role ltac:(left)) as Hrole.
  destruct (Qle_bool p (x1 + value w1 role)) eqn:E1.
  - apply Qle_bool_iff in E1.
    assert (E2 : Qle_bool p (x2 + value w2 role) = true)
      by (apply Qle_bool_iff; lra).
    rewrite E2. lia.
  - destruct (Qle_bool p (x2 + value w2 role)) eqn:E2.
    + destruct rest as [|role' rest']; [simpl; lia|].
      pose proof (roleIndexAt_loop_bounds w1 p (role' :: rest') (index + 1)
                    (x1 + value w1 role)%Q ltac:(done)).
      lia.
    + apply IH; [|lra]. intros r Hr. apply Hw. by right.
Qed.

(** X4.  Widening visible columns never moves the result of [roleIndexAt]
    to the right: if no visible role is narrower in the new width mapping,
    the index returned for a pointer position is at most what it was. *)
Theorem roleIndexAt_wider (h : KItemListHeader) (pos : QPointF)
    (rolesWidths : gmap QByteArray qreal) :
  widerVisibleValues h (m_visibleRolesWidths h) rolesWidths ->
  roleIndexAt (setVisibleRolesWidths h rolesWidths).1 pos <= roleIndexAt h pos.
Proof.
  intros Hw. unfold roleIndexAt. simpl.
  apply roleIndexAt_loop_wider; [exact Hw | lra].
Qed.

Lemma roleIndexAt_wider_witness :
  roleIndexAt (setVisibleRolesWidths exHeader exWidthsWide).1 (at_x 55)
  <= roleIndexAt exHeader (at_x 55).
Proof.
  apply (roleIndexAt_wider exHeader (at_x 55) exWidthsWide).
  intros role Hrole. simpl in Hrole.
  rewrite !elem_of_cons, elem_of_nil in Hrole.
  destruct Hrole as [-> | [-> | [-> | []]]]; q_closed.
Defined.

(** ** Resize grip and cursor *)

Lemma isAboveRoleGrip_loop_outside (h : KItemListHeader) (n i : nat) (x : qreal) :
  (i <= length (m_visibleRoles h))%nat ->
  (length (m_visibleRoles h) < i + n)%nat ->
  isAboveRoleGrip_loop h n i x = None.
Proof.
  revert i x. induction n as [|n IH]; intros i x Hi Hn; [lia|].
  simpl. destruct (m_visibleRoles h !! i) as [role|] eqn:E; [|done].
  apply lookup_lt_Some in E. apply IH; lia.
Qed.

(** X5.  [isAboveRoleGrip] is defined exactly for the role indices below
    the number of visible roles.  That includes the negative ones: for them
    the loop does not run and the grip tested is the one at x = 0. *)
Theorem isAboveRoleGrip_defined_iff (tk : Toolkit) (h : KItemListHeader)
    (pos : QPointF) (roleIndex : Z) :
  (is_Some (isAboveRoleGrip tk h pos roleIndex)
   <-> roleIndex < Z.of_nat (length (m_visibleRoles h)))
  /\ (roleIndex < 0 ->
      isAboveRoleGrip tk h pos roleIndex
      = Some (Qle_bool (0 - inject_Z (headerGripMargin tk)) (pt_x pos)
              && Qle_bool (pt_x pos) 0)).
Proof.
  split.
  - unfold isAboveRoleGrip. split.
    + intros Hsome.
      destruct (Z_lt_le_dec roleIndex (Z.of_nat (length (m_visibleRoles h))))
        as [Hlt | Hge]; [done|].
      rewrite isAboveRoleGrip_loop_outside in Hsome by lia.
      by destruct Hsome.
    + intros Hlt.
      destruct (isAboveRoleGrip_loop_sum h (Z.to_nat (roleIndex + 1)) 0 0%Q)
        as (x & -> & _); [lia | done].
  - intros Hneg. unfold isAboveRoleGrip.
    replace (Z.to_nat (roleIndex + 1)) with 0%nat by lia. done.
Qed.

Example isAboveRoleGrip_beyond :
  isAboveRoleGrip exToolkit exHeader (at_x 100) 3 = None.
Proof. reflexivity. Qed.

Example isAboveRoleGrip_none :
  isAboveRoleGrip exToolkit exHeader (at_x (-2)) (-1) = Some true.
Proof. reflexivity. Qed.

(** ** Pointer events *)

Lemma set_pressedRoleIndex_same (h : KItemListHeader) (i : Z) :
  m_pressedRoleIndex h = i -> set_pressedRoleIndex h i = h.
Proof. intros <-. by destruct h. Qed.

Lemma set_hoveredRoleIndex_same (h : KItemListHeader) (i : Z) :
  m_hoveredRoleIndex h = i -> set_hoveredRoleIndex h i = h.
Proof. intros <-. by destruct h. Qed.

Lemma set_pressedRoleIndex_changed (h : KItemListHeader) (i : Z) :
  m_pressedRoleIndex h <> i -> set_pressedRoleIndex h i <> h.
Proof. intros Hne E. apply Hne. by rewrite <- E. Qed.

Lemma set_hoveredRoleIndex_changed (h : KItemListHeader) (i : Z) :
  m_hoveredRoleIndex h <> i -> set_hoveredRoleIndex h i <> h.
Proof. intros Hne E. apply Hne. by rewrite <- E. Qed.

(** The two update functions written with a decision on the index. *)
Lemma updatePressedRoleIndex_cases (h : KItemListHeader) (pos : QPointF) :
  updatePressedRoleIndex h pos
  = if decide (m_pressedRoleIndex h = roleIndexAt h pos) then (h, [])
    else (set_pressedRoleIndex h (roleIndexAt h pos), [Update]).
Proof.
  unfold updatePressedRoleIndex.
  destruct (decide _) as [E|E].
  - apply Z.eqb_eq in E. by rewrite E.
  - apply Z.eqb_neq in E. by rewrite E.
Qed.

Lemma updateHoveredRoleIndex_cases (h : KItemListHeader) (pos : QPointF) :
  updateHoveredRoleIndex h pos
  = if decide (m_hoveredRoleIndex h = roleIndexAt h pos) then (h, [])
    else (set_hoveredRoleIndex h (roleIndexAt h pos), [Update]).
Proof.
  unfold updateHoveredRoleIndex.
  destruct (decide _) as [E|E].
  - apply Z.eqb_eq in E. by rewrite E.
  - apply Z.eqb_neq in E. by rewrite E.
Qed.

Lemma mouseReleaseEvent_cases (h : KItemListHeader) :
  mouseReleaseEvent h
  = if decide (m_pressedRoleIndex h = none) then (h, [])
    else (set_pressedRoleIndex h none, [Update]).
Proof.
  unfold mouseReleaseEvent, none.
  destruct (decide _) as [E|E].
  - apply Z.eqb_eq in E. by rewrite E.
  - apply Z.eqb_neq in E. by rewrite E.
Qed.

Lemma hoverLeaveEvent_cases (h : KItemListHeader) :
  hoverLeaveEvent h
  = if decide (m_hoveredRoleIndex h = none) then (h, [])
    else (set_hoveredRoleIndex h none, [Update]).
Proof.
  unfold hoverLeaveEvent, none.
  destruct (decide _) as [E|E].
  - apply Z.eqb_eq in E. by rewrite E.
  - apply Z.eqb_neq in E. by rewrite E.
Qed.

(** X7.  [mouseReleaseEvent] sets the pressed index to "none" whatever it
    was, changes nothing else, and requests a redraw exactly when the
    pressed index was not "none" before. *)
Theorem mouseReleaseEvent_resets (h : KItemListHeader) :
  (mouseReleaseEvent h).1 = set_pressedRoleIndex h none /\
  (mouseReleaseEvent h).2 =
    (if decide (m_pressedRoleIndex h = none) then [] else [Update]).
Proof.
  rewrite mouseReleaseEvent_cases.
  destruct (decide _) as [E|E]; simpl; [|done].
  by rewrite set_pressedRoleIndex_same.
Qed.

(** X8.  When no role is pressed, a press followed by a release gives the
    widget back as it was.  Besides accepting the press, the two events
    request two redraws when the press is on a column and none when there
    is no column. *)
Theorem press_release_restores (h : KItemListHeader) (pos : QPointF) :
  m_pressedRoleIndex h = none ->
  (mouseReleaseEvent (mousePressEvent h pos).1).1 = h /\
  (mousePressEvent h pos).2 ++ (mouseReleaseEvent (mousePressEvent h pos).1).2
  = (if decide (m_visibleRoles h = []) then [Accept]
     else [Accept; Update; Update]).
Proof.
  intros Hnone. unfold mousePressEvent.
  rewrite updatePressedRoleIndex_cases, Hnone.
  pose proof (roleIndexAt_bounds h pos) as Hb.
  destruct (decide (m_visibleRoles h = [])) as [Hroles | Hroles].
  - assert (Hidx : roleIndexAt h pos = none)
      by (unfold roleIndexAt; by rewrite Hroles).
    rewrite Hidx.
    destruct (decide (none = none)); [|done]. simpl.
    rewrite mouseReleaseEvent_cases.
    destruct (decide _); [done | congruence].
  - assert (Hidx : none <> roleIndexAt h pos).
    { destruct (m_visibleRoles h) as [|role rest] eqn:E; [done|].
      unfold roleIndexAt, none. rewrite E.
      pose proof (roleIndexAt_loop_bounds (m_visibleRolesWidths h) (pt_x pos)
                    (role :: rest) (-1) 0%Q ltac:(done)).
      lia. }
    destruct (decide (none = roleIndexAt h pos)); [done|]. simpl.
    rewrite mouseReleaseEvent_cases. simpl.
    destruct (decide (roleIndexAt h pos = none)); [congruence|]. simpl.
    split; [|done]. destruct h; simpl in *. by subst.
Qed.

Lemma press_release_restores_witness :
  (mouseReleaseEvent (mousePressEvent exHeader (at_x 60)).1).1 = exHeader /\
  (mousePressEvent exHeader (at_x 60)).2
    ++ (mouseReleaseEvent (mousePressEvent exHeader (at_x 60)).1).2
  = (if decide (m_visibleRoles exHeader = []) then [Accept]
     else [Accept; Update; Update]).
Proof. apply (press_release_restores exHeader (at_x 60)). reflexivity. Defined.

(** X9.  When no role is hovered, the pointer entering and then leaving
    gives the widget back as it was. *)
Theorem enter_leave_restores (h : KItemListHeader) (pos : QPointF) :
  m_hoveredRoleIndex h = none ->
  (hoverLeaveEvent (hoverEnterEvent h pos).1).1 = h.
Proof.
  intros Hnone. unfold hoverEnterEvent.
  rewrite updateHoveredRoleIndex_cases, hoverLeaveEvent_cases.
  destruct (decide (m_hoveredRoleIndex h = roleIndexAt h pos)) as [E|E]; simpl.
  - destruct (decide _); [done | congruence].
  - destruct (decide (roleIndexAt h pos = none)); [congruence|]. simpl.
    destruct h; simpl in *. by subst.
Qed.

Lemma enter_leave_restores_witness :
  (hoverLeaveEvent (hoverEnterEvent exHeader (at_x 60)).1).1 = exHeader.
Proof. apply (enter_leave_restores exHeader (at_x 60)). reflexivity. Defined.

Lemma mousePressEvent_pair (h : KItemListHeader) (pos : QPointF) :
  mousePressEvent h pos
  = ((updatePressedRoleIndex h pos).1, Accept :: (updatePressedRoleIndex h pos).2).
Proof. unfold mousePressEvent. by destruct (updatePressedRoleIndex h pos). Qed.

(** X10.  A pointer event repeated at the same position changes nothing
    and requests no redraw: the second [hoverEnterEvent], [mouseMoveEvent]
    or [mousePressEvent] at a position leaves the widget as the first one
    left it, with no request but the [accept()] of the press. *)
Theorem pointer_event_repeated (h : KItemListHeader) (pos : QPointF) :
  hoverEnterEvent (hoverEnterEvent h pos).1 pos = ((hoverEnterEvent h pos).1, [])
  /\ mouseMoveEvent (mouseMoveEvent h pos).1 pos = ((mouseMoveEvent h pos).1, [])
  /\ mousePressEvent (mousePressEvent h pos).1 pos
     = ((mousePressEvent h pos).1, [Accept]).
Proof.
  assert (Hp : updatePressedRoleIndex (updatePressedRoleIndex h pos).1 pos
               = ((updatePressedRoleIndex h pos).1, [])).
  { rewrite (updatePressedRoleIndex_cases h).
    destruct (decide _) as [E|E]; simpl;
      rewrite updatePressedRoleIndex_cases; by rewrite decide_True. }
  split; [|split].
  - unfold hoverEnterEvent. rewrite (updateHoveredRoleIndex_cases h).
    destruct (decide _) as [E|E]; simpl;
      rewrite updateHoveredRoleIndex_cases; by rewrite decide_True.
  - exact Hp.
  - rewrite !mousePressEvent_pair. simpl. by rewrite Hp.
Qed.

(** ** Calls as transitions *)

Lemma hoverMoveEvent_requests (tk : Toolkit) (h : KItemListHeader) (pos : QPointF) :
  exists cursor : Request,
    hoverMoveEvent tk h pos
    = Some ((updateHoveredRoleIndex h pos).1,
            (updateHoveredRoleIndex h pos).2 ++ [cursor])
    /\ (cursor = SetCursorSplitH \/ cursor = UnsetCursor).
Proof.
  destruct (hoverMoveEvent_defined tk h pos) as [rs Hrs].
  unfold hoverMoveEvent in *.
  destruct (updateHoveredRoleIndex h pos) as [h' rs0]. simpl in *.
  destruct (0 <=? m_hoveredRoleIndex h').
  - destruct (isAboveRoleGrip tk h' pos (m_hoveredRoleIndex h')) as [[|]|];
      [by exists SetCursorSplitH; split; [|left]
      | by exists UnsetCursor; split; [|right] | done].
  - by exists UnsetCursor; split; [|right].
Qed.

(** The widget after a call: unchanged, or one member assigned. *)
Lemma step_shape (tk : Toolkit) (h : KItemListHeader) (c : Call)
    (h' : KItemListHeader) (rs : list Request) :
  step tk h c = Some (h', rs) ->
  match c with
  | CallSetModel model => h' = h \/ h' = set_model h model
  | CallSetVisibleRoles roles => h' = set_visibleRoles h roles
  | CallSetVisibleRolesWidths ws => h' = set_visibleRolesWidths h ws
  | MousePress pos | MouseMove pos =>
      (h' = h /\ ~ Update ∈ rs
       /\ m_pressedRoleIndex h = roleIndexAt h pos) \/
      (h' = set_pressedRoleIndex h (roleIndexAt h pos) /\ Update ∈ rs
       /\ m_pressedRoleIndex h <> roleIndexAt h pos)
  | MouseRelease =>
      (h' = h /\ ~ Update ∈ rs /\ m_pressedRoleIndex h = none) \/
      (h' = set_pressedRoleIndex h none /\ Update ∈ rs
       /\ m_pressedRoleIndex h <> none)
  | HoverEnter pos | HoverMove pos =>
      (h' = h /\ ~ Update ∈ rs
       /\ m_hoveredRoleIndex h = roleIndexAt h pos) \/
      (h' = set_hoveredRoleIndex h (roleIndexAt h pos) /\ Update ∈ rs
       /\ m_hoveredRoleIndex h <> roleIndexAt h pos)
  | HoverLeave =>
      (h' = h /\ ~ Update ∈ rs /\ m_hoveredRoleIndex h = none) \/
      (h' = set_hoveredRoleIndex h none /\ Update ∈ rs
       /\ m_hoveredRoleIndex h <> none)
  | CallPaint | SortRoleChanged _ _ | SortOrderChanged _ _ => h' = h
  end.
Proof.
  destruct c; simpl.
  - unfold setModel. destruct (decide _); intros [= <- <-]; [by left | by right].
  - by intros [= <- <-].
  - by intros [= <- <-].
  - destruct (paint tk h); by intros [= <- <-].
  - rewrite mousePressEvent_pair, updatePressedRoleIndex_cases.
    destruct (decide _); intros [= <- <-]; [left | right]; simpl.
    + split; [done|]. split; [|done].
      rewrite elem_of_cons, elem_of_nil. intros [|]; done.
    + split; [done|]. split; [|done]. rewrite !elem_of_cons. tauto.
  - rewrite mouseReleaseEvent_cases.
    destruct (decide _); intros [= <- <-]; [left | right].
    + split; [done|]. split; [apply not_elem_of_nil | done].
    + split; [done|]. split; [|done]. rewrite !elem_of_cons. tauto.
  - unfold mouseMoveEvent. rewrite updatePressedRoleIndex_cases.
    destruct (decide _); intros [= <- <-]; [left | right].
    + split; [done|]. split; [apply not_elem_of_nil | done].
    + split; [done|]. split; [|done]. rewrite !elem_of_cons. tauto.
  - unfold hoverEnterEvent. rewrite updateHoveredRoleIndex_cases.
    destruct (decide _); intros [= <- <-]; [left | right].
    + split; [done|]. split; [apply not_elem_of_nil | done].
    + split; [done|]. split; [|done]. rewrite !elem_of_cons. tauto.
  - rewrite hoverLeaveEvent_cases.
    destruct (decide _); intros [= <- <-]; [left | right].
    + split; [done|]. split; [apply not_elem_of_nil | done].
    + split; [done|]. split; [|done]. rewrite !elem_of_cons. tauto.
  - destruct (hoverMoveEvent_requests tk h pos) as (cursor & -> & Hc).
    rewrite updateHoveredRoleIndex_cases.
    destruct (decide _); intros [= <- <-]; [left | right]; simpl.
    + split; [done|]. split; [|done]. rewrite elem_of_cons, elem_of_nil.
      destruct Hc as [-> | ->]; intros [|]; done.
    + split; [done|]. split; [|done]. rewrite !elem_of_cons. tauto.
  - by intros [= <- <-].
  - by intros [= <- <-].
Qed.

(** X11.  A pointer event requests a redraw exactly when it changes the
    widget: for every hover or mouse event, [update()] is among the requests
    if and only if the widget after the event differs from the one before. *)
Theorem pointer_event_redraw_iff_changed (tk : Toolkit) (h : KItemListHeader)
    (c : Call) (h' : KItemListHeader) (rs : list Request) :
  isPointerCall c = true ->
  step tk h c = Some (h', rs) ->
  (Update ∈ rs <-> h' <> h).
Proof.
  intros Hc Hstep. apply step_shape in Hstep.
  destruct c; try discriminate Hc;
    destruct Hstep as [(-> & Hno & _) | (-> & Hyes & Hne)];
    try (split; [intros Hin; by destruct Hno | intros Hneq; by destruct Hneq]);
    split; intros _; try done;
    first [ by apply set_pressedRoleIndex_changed
          | by apply set_hoveredRoleIndex_changed ].
Qed.

Lemma pointer_event_redraw_iff_changed_witness :
  Update ∈ [Update; SetCursorSplitH] <-> set_hoveredRoleIndex exHeader 0 <> exHeader.
Proof.
  apply (pointer_event_redraw_iff_changed exToolkit exHeader (HoverMove (at_x 47)));
    reflexivity.
Defined.

(** X12.  What a call leaves alone: only hover events change the hovered
    index, only mouse events the pressed index, only [setVisibleRoles] the
    list of roles, only [setVisibleRolesWidths] the widths, only [setModel]
    the model, and no call changes [m_resizePressedRole]. *)
Theorem step_frame (tk : Toolkit) (h : KItemListHeader) (c : Call)
    (h' : KItemListHeader) (rs : list Request) :
  step tk h c = Some (h', rs) ->
  (isHoverCall c = false -> m_hoveredRoleIndex h' = m_hoveredRoleIndex h)
  /\ (isMouseCall c = false -> m_pressedRoleIndex h' = m_pressedRoleIndex h)
  /\ ((forall roles, c <> CallSetVisibleRoles roles) ->
      m_visibleRoles h' = m_visibleRoles h)
  /\ ((forall ws, c <> CallSetVisibleRolesWidths ws) ->
      m_visibleRolesWidths h' = m_visibleRolesWidths h)
  /\ ((forall model, c <> CallSetModel model) -> m_model h' = m_model h)
  /\ m_resizePressedRole h' = m_resizePressedRole h.
Proof.
  intros Hstep. apply step_shape in Hstep.
  destruct c;
    repeat match type of Hstep with
           | _ \/ _ => destruct Hstep as [Hstep | Hstep]
           | _ /\ _ => destruct Hstep as [Hstep _]
           end; subst h'; simpl;
    repeat split; try done; intros Hno; try done;
    exfalso; by eapply Hno.
Qed.

Lemma step_frame_witness :
  (isHoverCall (MousePress (at_x 60)) = false ->
   m_hoveredRoleIndex (set_pressedRoleIndex exHeader 1) = m_hoveredRoleIndex exHeader)
  /\ (isMouseCall (MousePress (at_x 60)) = false ->
      m_pressedRoleIndex (set_pressedRoleIndex exHeader 1) = m_pressedRoleIndex exHeader)
  /\ ((forall roles, MousePress (at_x 60) <> CallSetVisibleRoles roles) ->
      m_visibleRoles (set_pressedRoleIndex exHeader 1) = m_visibleRoles exHeader)
  /\ ((forall ws, MousePress (at_x 60) <> CallSetVisibleRolesWidths ws) ->
      m_visibleRolesWidths (set_pressedRoleIndex exHeader 1)
      = m_visibleRolesWidths exHeader)
  /\ ((forall model, MousePress (at_x 60) <> CallSetModel model) ->
      m_model (set_pressedRoleIndex exHeader 1) = m_model exHeader)
  /\ m_resizePressedRole (set_pressedRoleIndex exHeader 1)
     = m_resizePressedRole exHeader.
Proof.
  apply (step_frame exToolkit exHeader (MousePress (at_x 60))
           (set_pressedRoleIndex exHeader 1) [Accept; Update]).
  reflexivity.
Defined.

(** X13.  In every state the widget can reach, [m_resizePressedRole] is
    false, and the hovered and the pressed index are at least -1. *)
Theorem reachable_members (tk : Toolkit) (h : KItemListHeader) :
  reachable tk h ->
  m_resizePressedRole h = false
  /\ -1 <= m_hoveredRoleIndex h
  /\ -1 <= m_pressedRoleIndex h.
Proof.
  induction 1 as [|h c h' rs Hreach (IHr & IHh & IHp) Hstep].
  - simpl. lia.
  - apply step_shape in Hstep.
    assert (Hidx : forall pos, -1 <= roleIndexAt h pos)
      by (intros pos; pose proof (roleIndexAt_bounds h pos); lia).
    destruct c;
      repeat match type of Hstep with
             | _ \/ _ => destruct Hstep as [Hstep | Hstep]
             | _ /\ _ => destruct Hstep as [Hstep _]
             end; subst h'; simpl; unfold none;
      repeat split; first [ done | lia | apply Hidx ].
Qed.

Lemma reachable_members_witness :
  m_resizePressedRole exStale = false
  /\ -1 <= m_hoveredRoleIndex exStale
  /\ -1 <= m_pressedRoleIndex exStale.
Proof.
  apply (reachable_members exToolkit exStale).
  eapply (reachable_step _ exHovered (CallSetVisibleRoles [])); [|reflexivity].
  eapply (reachable_step _ (setVisibleRoles init ["A"]).1 (HoverEnter (at_x 0)));
    [|reflexivity].
  eapply (reachable_step _ init (CallSetVisibleRoles ["A"])); [|reflexivity].
  apply reachable_init.
Defined.

(** ** setModel *)

(** Case analysis on a request known to be in a list written out. *)
Ltac request_cases H :=
  repeat first
    [ apply elem_of_nil in H; destruct H
    | apply elem_of_cons in H; destruct H as [H | H];
      [first [discriminate H | injection H as -> | subst]|] ].

(** X14.  After [setModel] the widget holds the model passed.  With the
    connections of the two sort signals of a model counted as one, the call
    disconnects from a model exactly when the widget held that model and is
    passed another one (or null), and connects to a model exactly when it is
    passed that model and held another one (or null); it never connects to
    or disconnects from anything else.  Called again with the same model it
    changes nothing and sends no request. *)
Theorem setModel_requests (h : KItemListHeader) (model : option ModelPtr) :
  m_model (setModel h model).1 = model
  /\ (forall p, Connect p ∈ (setModel h model).2
                <-> model = Some p /\ m_model h <> model)
  /\ (forall p, Disconnect p ∈ (setModel h model).2
                <-> m_model h = Some p /\ m_model h <> model)
  /\ (forall r, r ∈ (setModel h model).2 ->
                exists p, r = Connect p \/ r = Disconnect p)
  /\ setModel (setModel h model).1 model = ((setModel h model).1, []).
Proof.
  unfold setModel.
  destruct (decide (m_model h = model)) as [E|E]; simpl.
  - split; [done|].
    split; [intros p; rewrite elem_of_nil; tauto|].
    split; [intros p; rewrite elem_of_nil; tauto|].
    split; [intros r Hr; by apply elem_of_nil in Hr|].
    by rewrite decide_True.
  - split; [done|].
    destruct (m_model h) as [old|], model as [new|]; simpl;
      (split; [intros p; split;
               [intros H; split; [|done]; by request_cases H
               | intros [[= ->] _]; rewrite ?elem_of_cons; tauto]|]);
      (split; [intros p; split;
               [intros H; split; [|done]; by request_cases H
               | intros [[= ->] _]; rewrite ?elem_of_cons; tauto]|]);
      (split; [intros r H; request_cases H; eexists; first [by left | by right]|]);
      try done; by rewrite decide_True.
Qed.

Example setModel_replaces :
  setModel exHeader (Some 2%N)
  = (set_model exHeader (Some 2%N), [Disconnect 1%N; Connect 2%N]).
Proof. reflexivity. Qed.

Example setModel_same : setModel exHeader (Some 1%N) = (exHeader, []).
Proof. reflexivity. Qed.

(** ** What [paint] paints *)

(** The loop of [paint] with a model: one operation per role, each the
    result of [paintRole] on the rectangle that starts where the columns
    before it end. *)
Lemma paint_loop_spec (tk : Toolkit) (h : KItemListHeader)
    (roles : list QByteArray) (x : qreal) (orderIndex : Z) :
  is_Some (m_model h) ->
  exists (ops : list PaintOp) (x' : qreal),
    paint_loop tk h roles x orderIndex = Some (ops, x')
    /\ length ops = length roles
    /\ (x' == x + sumWidths (map (value (m_visibleRolesWidths h)) roles))%Q
    /\ (forall (i : nat) (role : QByteArray),
          roles !! i = Some role ->
          exists xi : qreal,
            (xi == x + sumWidths
                       (take i (map (value (m_visibleRolesWidths h)) roles)))%Q
            /\ ops !! i
               = paintRole tk h role
                   (mkQRectF xi 0 (value (m_visibleRolesWidths h) role)
                             (size_height tk))
                   (orderIndex + Z.of_nat i)).
Proof.
  intros [m Hm]. revert x orderIndex.
  induction roles as [|role rest IH]; intros x orderIndex.
  - exists [], x. simpl. split; [done|]. split; [done|]. split; [lra|].
    intros i r Hr. by rewrite lookup_nil in Hr.
  - destruct (IH (x + value (m_visibleRolesWidths h) role)%Q (orderIndex + 1))
      as (ops & x' & Hloop & Hlen & Hx' & Hops).
    simpl paint_loop. rewrite Hloop.
    destruct (paintRole tk h role
                (mkQRectF x 0 (value (m_visibleRolesWidths h) role) (size_height tk))
                orderIndex) as [op|] eqn:Hop.
    2: { unfold paintRole in Hop. by rewrite Hm in Hop. }
    exists (op :: ops), x'. split; [done|]. split; [simpl; lia|].
    split; [simpl; lra|].
    intros [|i] r Hr; simpl in Hr.
    + injection Hr as <-. exists x. split; [simpl; lra|].
      replace (orderIndex + Z.of_nat 0) with orderIndex by lia.
      by rewrite Hop.
    + destruct (Hops i r Hr) as (xi & Hxi & Hi).
      exists xi. split; [simpl; lra|].
      simpl. rewrite Hi. f_equal. lia.
Qed.

(** A header section in the output of [paint] is the result of
    [paintRole] for a visible role and its index. *)
Lemma paint_header_at (tk : Toolkit) (h : KItemListHeader)
    (ops : list PaintOp) (k : nat) (o : QStyleOptionHeader) :
  paint tk h = Some ops ->
  ops !! k = Some (DrawHeader o) ->
  exists (i : nat) (role : QByteArray) (rect : QRectF),
    k = (2 + i)%nat
    /\ m_visibleRoles h !! i = Some role
    /\ paintRole tk h role rect (Z.of_nat i) = Some (DrawHeader o).
Proof.
  unfold paint. destruct (m_model h) as [m|] eqn:Hm.
  2: { intros [= <-] Hk. by rewrite lookup_nil in Hk. }
  destruct (paint_loop_spec tk h (m_visibleRoles h) 0%Q 0)
    as (ops0 & x' & Hloop & Hlen & _ & Hops); [by rewrite Hm|].
  rewrite Hloop. intros [= <-] Hk.
  destruct k as [|[|i]]; [discriminate Hk | discriminate Hk |].
  simpl in Hk.
  destruct (decide (i < length ops0)%nat) as [Hi | Hi].
  - rewrite lookup_app_l in Hk by done.
    destruct (lookup_lt_is_Some_2 (m_visibleRoles h) i ltac:(lia)) as [role Hrole].
    destruct (Hops i role Hrole) as (xi & _ & Hpaint).
    exists i, role. eexists. split; [done|]. split; [done|].
    by rewrite <- Hk, Hpaint.
  - rewrite lookup_app_r in Hk by lia.
    by destruct (i - length ops0)%nat as [|[|n]].
Qed.

Lemma paintRole_fields (tk : Toolkit) (h : KItemListHeader)
    (role : QByteArray) (rect : QRectF) (orderIndex : Z)
    (o : QStyleOptionHeader) :
  paintRole tk h role rect orderIndex = Some (DrawHeader o) ->
  opt_section o = orderIndex
  /\ opt_mouseOver o = (m_hoveredRoleIndex h =? orderIndex)
  /\ opt_sunken o = (m_pressedRoleIndex h =? orderIndex)
  /\ opt_position o
     = sectionPosition (Z.of_nat (length (m_visibleRoles h))) orderIndex
  /\ opt_raised o = true
  /\ opt_enabled o = isEnabled tk
  /\ opt_active o = isActiveWindow tk.
Proof.
  unfold paintRole. destruct (m_model h); [|done].
  intros [= <-]. done.
Qed.

(** X17.  In what [paint] paints, every header section carries a valid
    index as its section number, is marked as under the mouse exactly when
    that number is the hovered index and as sunken exactly when it is the
    pressed index.  So a hovered or pressed index that is "none" or no
    index of the list marks no section. *)
Theorem paint_highlight (tk : Toolkit) (h : KItemListHeader)
    (ops : list PaintOp) (o : QStyleOptionHeader) :
  paint tk h = Some ops ->
  DrawHeader o ∈ ops ->
  validIndex h (opt_section o)
  /\ (opt_mouseOver o = true <-> opt_section o = m_hoveredRoleIndex h)
  /\ (opt_sunken o = true <-> opt_section o = m_pressedRoleIndex h)
  /\ (~ validIndex h (m_hoveredRoleIndex h) -> opt_mouseOver o = false)
  /\ (~ validIndex h (m_pressedRoleIndex h) -> opt_sunken o = false).
Proof.
  intros Hpaint Hin.
  apply list_elem_of_lookup in Hin as [k Hk].
  destruct (paint_header_at tk h ops k o Hpaint Hk) as (i & role & rect & -> & Hrole & Hp).
  apply paintRole_fields in Hp as (Hs & Hm & Hsu & _).
  apply lookup_lt_Some in Hrole.
  assert (Hv : validIndex h (Z.of_nat i)) by (unfold validIndex; lia).
  rewrite Hm, Hsu, Hs.
  split; [done|].
  split; [rewrite Z.eqb_eq; split; congruence|].
  split; [rewrite Z.eqb_eq; split; congruence|].
  split; intros Hstale; apply Z.eqb_neq; intros E; apply Hstale;
    by rewrite E.
Qed.

Lemma paint_highlight_witness :
  validIndex exHoveredB (opt_section exSectionB)
  /\ (opt_mouseOver exSectionB = true
      <-> opt_section exSectionB = m_hoveredRoleIndex exHoveredB)
  /\ (opt_sunken exSectionB = true
      <-> opt_section exSectionB = m_pressedRoleIndex exHoveredB)
  /\ (~ validIndex exHoveredB (m_hoveredRoleIndex exHoveredB) ->
      opt_mouseOver exSectionB = false)
  /\ (~ validIndex exHoveredB (m_pressedRoleIndex exHoveredB) ->
      opt_sunken exSectionB = false).
Proof.
  apply (paint_highlight exToolkit exHoveredB
           (default [] (paint exToolkit exHoveredB)) exSectionB).
  - reflexivity.
  - apply list_elem_of_lookup. exists 3%nat. reflexivity.
Defined.

(** The stale hovered index of the example marks nothing. *)
Example paint_stale_marks_nothing :
  paint exToolkit (setModel exStale (Some 1%N)).1
  = Some [SetFont; SetPen; DrawHeaderEmptyArea (mkQRect 0 0 200 24)].
Proof. reflexivity. Qed.

(** X18.  The position [paint] gives a header section: the only section
    when there is one visible role; otherwise the beginning for the first
    role, the end for the last one and the middle for the ones between. *)
Theorem paint_position (tk : Toolkit) (h : KItemListHeader)
    (ops : list PaintOp) (o : QStyleOptionHeader) :
  paint tk h = Some ops ->
  DrawHeader o ∈ ops ->
  let count := Z.of_nat (length (m_visibleRoles h)) in
  (opt_position o = OnlyOneSection <-> count = 1)
  /\ (opt_position o = Beginning <-> count <> 1 /\ opt_section o = 0)
  /\ (opt_position o = End <-> count <> 1 /\ opt_section o = count - 1)
  /\ (opt_position o = Middle <-> 0 < opt_section o < count - 1).
Proof.
  intros Hpaint Hin count.
  apply list_elem_of_lookup in Hin as [k Hk].
  destruct (paint_header_at tk h ops k o Hpaint Hk)
    as (i & role & rect & -> & Hrole & Hp).
  apply paintRole_fields in Hp as (Hs & _ & _ & Hpos & _).
  apply lookup_lt_Some in Hrole.
  rewrite Hpos, Hs. fold count. unfold sectionPosition.
  assert (Hi : 0 <= Z.of_nat i < count) by (unfold count; lia).
  destruct (count =? 1) eqn:E1;
    [apply Z.eqb_eq in E1 | apply Z.eqb_neq in E1];
    (destruct (Z.of_nat i =? 0) eqn:E2;
      [apply Z.eqb_eq in E2 | apply Z.eqb_neq in E2]);
    (destruct (Z.of_nat i =? count - 1) eqn:E3;
      [apply Z.eqb_eq in E3 | apply Z.eqb_neq in E3]);
    repeat split; intros; first [ done | lia ].
Qed.

Lemma paint_position_witness :
  let count := Z.of_nat (length (m_visibleRoles exHoveredB)) in
  (opt_position exSectionB = OnlyOneSection <-> count = 1)
  /\ (opt_position exSectionB = Beginning
      <-> count <> 1 /\ opt_section exSectionB = 0)
  /\ (opt_position exSectionB = End
      <-> count <> 1 /\ opt_section exSectionB = count - 1)
  /\ (opt_position exSectionB = Middle
      <-> 0 < opt_section exSectionB < count - 1).
Proof.
  apply (paint_position exToolkit exHoveredB
           (default [] (paint exToolkit exHoveredB)) exSectionB).
  - reflexivity.
  - apply list_elem_of_lookup. exists 3%nat. reflexivity.
Defined.

(** ** Widths of roles that are not visible *)

Lemma roleIndexAt_loop_sameVisible (w1 w2 : gmap QByteArray qreal) (p : qreal)
    (roles : list QByteArray) (index : Z) (x : qreal) :
  (forall role, role ∈ roles -> value w1 role = value w2 role) ->
  roleIndexAt_loop w1 p roles index x = roleIndexAt_loop w2 p roles index x.
Proof.
  revert index x.
  induction roles as [|role rest IH]; intros index x Hs; simpl; [done|].
  rewrite (Hs role) by left. rewrite IH; [done|].
  intros r Hr. apply Hs. by right.
Qed.

Lemma isAboveRoleGrip_loop_sameVisible (h : KItemListHeader)
    (w : gmap QByteArray qreal) (n i : nat) (x : qreal) :
  sameVisibleValues h (m_visibleRolesWidths h) w ->
  isAboveRoleGrip_loop h n i x
  = isAboveRoleGrip_loop (set_visibleRolesWidths h w) n i x.
Proof.
  intros Hs. revert i x.
  induction n as [|n IH]; intros i x; simpl; [done|].
  destruct (m_visibleRoles h !! i) as [role|] eqn:E; [|done].
  rewrite (Hs role) by (by eapply list_elem_of_lookup_2). apply IH.
Qed.

Lemma paint_loop_sameVisible (tk : Toolkit) (h : KItemListHeader)
    (w : gmap QByteArray qreal) (roles : list QByteArray) (x : qreal)
    (orderIndex : Z) :
  (forall role, role ∈ roles ->
     value (m_visibleRolesWidths h) role = value w role) ->
  paint_loop tk h roles x orderIndex
  = paint_loop tk (set_visibleRolesWidths h w) roles x orderIndex.
Proof.
  revert x orderIndex.
  induction roles as [|role rest IH]; intros x orderIndex Hs; simpl; [done|].
  rewrite <- (Hs role) by left.
  change (paintRole tk (set_visibleRolesWidths h w)) with (paintRole tk h).
  destruct (paintRole tk h role _ orderIndex); [|done].
  rewrite IH; [done|]. intros r Hr. apply Hs. by right.
Qed.

(** X19.  Hit test, grip test and painting read the width mapping only at
    the visible roles: a mapping passed to [setVisibleRolesWidths] that
    gives every visible role the value it had (entries of other roles may
    differ, and an absent entry counts as 0) changes the result of none of
    them. *)
Theorem layout_reads_visible_widths_only (tk : Toolkit) (h : KItemListHeader)
    (rolesWidths : gmap QByteArray qreal) :
  sameVisibleValues h (m_visibleRolesWidths h) rolesWidths ->
  let h' := (setVisibleRolesWidths h rolesWidths).1 in
  (forall pos, roleIndexAt h' pos = roleIndexAt h pos)
  /\ (forall pos i, isAboveRoleGrip tk h' pos i = isAboveRoleGrip tk h pos i)
  /\ paint tk h' = paint tk h.
Proof.
  intros Hs h'. subst h'. simpl.
  split; [|split].
  - intros pos. unfold roleIndexAt. simpl.
    symmetry. by apply roleIndexAt_loop_sameVisible.
  - intros pos i. unfold isAboveRoleGrip.
    by rewrite <- (isAboveRoleGrip_loop_sameVisible h _ _ _ _ Hs).
  - unfold paint. simpl.
    by rewrite <- (paint_loop_sameVisible tk h _ _ _ _ Hs).
Qed.

Lemma layout_reads_visible_widths_only_witness :
  let h' := (setVisibleRolesWidths exHeader (<["Z" := 7%Q]> exWidths)).1 in
  (forall pos, roleIndexAt h' pos = roleIndexAt exHeader pos)
  /\ (forall pos i,
        isAboveRoleGrip exToolkit h' pos i = isAboveRoleGrip exToolkit exHeader pos i)
  /\ paint exToolkit h' = paint exToolkit exHeader.
Proof.
  apply (layout_reads_visible_widths_only exToolkit exHeader (<["Z" := 7%Q]> exWidths)).
  intros role Hrole. simpl in Hrole.
  rewrite !elem_of_cons, elem_of_nil in Hrole.
  destruct Hrole as [-> | [-> | [-> | []]]]; reflexivity.
Defined.

(** ** Recovery of the interaction state *)

(** X20.  A pointer event makes the index it writes right again, whatever
    the widget was before: after a hover event the hovered index is "none"
    or an index of the list of visible roles, and after a mouse event the
    pressed index is. *)
Theorem pointer_event_repairs (tk : Toolkit) (h : KItemListHeader) (c : Call)
    (h' : KItemListHeader) (rs : list Request) :
  step tk h c = Some (h', rs) ->
  (isHoverCall c = true -> noneOrValid h' (m_hoveredRoleIndex h'))
  /\ (isMouseCall c = true -> noneOrValid h' (m_pressedRoleIndex h')).
Proof.
  intros Hstep. apply step_shape in Hstep.
  destruct c; (split; intros Hc; [try discriminate Hc | try discriminate Hc]);
    destruct Hstep as [(-> & _ & E) | (-> & _ & _)];
    first [ rewrite E; apply (roleIndexAt_noneOrValid h)
          | rewrite E; by left
          | apply (roleIndexAt_noneOrValid h)
          | by left ].
Qed.

Lemma pointer_event_repairs_witness :
  (isHoverCall (HoverEnter (at_x 0)) = true ->
   noneOrValid (set_hoveredRoleIndex exStale (-1))
     (m_hoveredRoleIndex (set_hoveredRoleIndex exStale (-1))))
  /\ (isMouseCall (HoverEnter (at_x 0)) = true ->
      noneOrValid (set_hoveredRoleIndex exStale (-1))
        (m_pressedRoleIndex (set_hoveredRoleIndex exStale (-1)))).
Proof.
  apply (pointer_event_repairs exToolkit exStale (HoverEnter (at_x 0))
           (set_hoveredRoleIndex exStale (-1)) [Update]).
  reflexivity.
Defined.

(** * The layout in double arithmetic: properties *)

(** ** The order of doubles *)

(** Case analysis on the doubles of a goal about comparisons. *)
Ltac double_order :=
  unfold Double.leb, Double.ltb, Double.eqb, SFleb, SFltb, SFeqb, SFcompare;
  intros;
  repeat match goal with
         | x : spec_float |- _ => destruct x as [[|]|[|]| |[|] ? ?]
         end;
  simpl in *; try done;
  repeat match goal with
         | H : context [Z.compare ?a ?b] |- _ =>
             destruct (Z.compare_spec a b); simpl in H; try done
         | |- context [Z.compare ?a ?b] =>
             destruct (Z.compare_spec a b); simpl; try done
         end;
  subst; try lia;
  rewrite ?Pos.compare_cont_spec in *; simpl in *;
  repeat match goal with
         | H : context [Pos.compare ?a ?b] |- _ =>
             destruct (Pos.compare_spec a b); simpl in H; try done
         | |- context [Pos.compare ?a ?b] =>
             destruct (Pos.compare_spec a b); simpl; try done
         end;
  subst; try lia.


Lemma double_leb_ltb_trans (a b c : spec_float) :
  Double.leb a b = true -> Double.ltb b c = true -> Double.ltb a c = true.
Proof. double_order. Qed.



Lemma double_leb_refl_l (a b : spec_float) :
  Double.leb a b = true -> Double.leb a a = true.
Proof. double_order. Qed.





(** ** Accumulated sums *)




(** ** The loop of [roleIndexAt] *)

(** What the loop returns, for any widths: it stops at the first role
    whose accumulated right edge the pointer is at or left of, and at the
    last role if there is none. *)
Lemma double_roleIndexAt_loop_spec (widths : gmap string spec_float)
    (p : spec_float) (roles : list string) (index : Z) (x : spec_float) :
  roles <> [] ->
  exists j : nat,
    (j < length roles)%nat /\
    Double.roleIndexAt_loop widths p roles index x = index + 1 + Z.of_nat j /\
    (forall j' : nat, (j' < j)%nat ->
       Double.leb p (Double.sumFrom x
                       (take (S j') (map (Double.value widths) roles))) = false) /\
    (Double.leb p (Double.sumFrom x
                     (take (S j) (map (Double.value widths) roles))) = true
     \/ S j = length roles).
Proof.
  revert index x.
  induction roles as [|role rest IH]; intros index x Hne; [done|].
  simpl Double.roleIndexAt_loop.
  destruct (Double.leb p (Double.add x (Double.value widths role))) eqn:E.
  - exists 0%nat. simpl. split; [lia|]. split; [lia|].
    split; [intros j' Hj'; lia | by left].
  - destruct rest as [|role' rest'].
    + exists 0%nat. simpl. split; [lia|]. split; [lia|].
      split; [intros j' Hj'; lia | by right].
    + destruct (IH (index + 1) (Double.add x (Double.value widths role))
                  ltac:(done)) as (j & Hlt & Hj & Hbelow & Hstop).
      exists (S j). split; [simpl in *; lia|]. split; [lia|]. split.
      * intros [|j'] Hj'; [done|]. apply (Hbelow j'). lia.
      * destruct Hstop as [Hstop | Hstop]; [by left | right; simpl in *; lia].
Qed.

Lemma double_roleIndexAt_bounds (h : Double.KItemListHeader)
    (pos : Double.QPointF) :
  -1 <= Double.roleIndexAt h pos < Z.of_nat (length (Double.m_visibleRoles h)).
Proof.
  unfold Double.roleIndexAt.
  destruct (Double.m_visibleRoles h) as [|role rest] eqn:E; [simpl; lia|].
  destruct (double_roleIndexAt_loop_spec (Double.m_visibleRolesWidths h)
              (Double.pt_x pos) (role :: rest) (-1) Double.zero ltac:(done))
    as (j & Hlt & -> & _).
  lia.
Qed.

(** The result of [roleIndexAt] on a non-empty list, with the edges of the
    specification. *)
Lemma double_roleIndexAt_spec (h : Double.KItemListHeader)
    (pos : Double.QPointF) :
  Double.m_visibleRoles h <> [] ->
  exists j : nat,
    (j < length (Double.m_visibleRoles h))%nat /\
    Double.roleIndexAt h pos = Z.of_nat j /\
    (forall j' : nat, (j' < j)%nat ->
       Double.leb (Double.pt_x pos) (Double.rightEdge h j') = false) /\
    (Double.leb (Double.pt_x pos) (Double.rightEdge h j) = true
     \/ S j = length (Double.m_visibleRoles h)).
Proof.
  intros Hne.
  destruct (double_roleIndexAt_loop_spec (Double.m_visibleRolesWidths h)
              (Double.pt_x pos) (Double.m_visibleRoles h) (-1) Double.zero Hne)
    as (j & Hlt & Hj & Hbelow & Hstop).
  exists j. split; [done|]. split; [unfold Double.roleIndexAt; lia|].
  split; [exact Hbelow | exact Hstop].
Qed.



(** ** Hit test: the claims *)



(** With widths 0.1, 0.2 and a pointer at 0.30000000000000004, the sum of
    the first two widths rounds onto the pointer position: the pointer is
    inside the second column. *)
Example double_roleIndexAt_rounding :
  Double.roleIndexAt Double.exTenths (Double.at_x Double.threeTenthsUp) = 1
  /\ Double.rightEdge Double.exTenths 1 = Double.threeTenthsUp.
Proof. split; reflexivity. Qed.






(** X1.  For a non-empty list of roles and any widths, [roleIndexAt]
    returns an index [i] of the list such that the pointer is at or left of
    no right edge of a column before [i], and either it is at or left of the
    right edge of column [i] or [i] is the last index.  The right edges are
    the sums the code accumulates in double arithmetic. *)
Theorem double_roleIndexAt_first_reaching (h : Double.KItemListHeader)
    (pos : Double.QPointF) :
  Double.m_visibleRoles h <> [] ->
  0 <= Double.roleIndexAt h pos < Z.of_nat (length (Double.m_visibleRoles h))
  /\ (forall j : nat, Z.of_nat j < Double.roleIndexAt h pos ->
        Double.leb (Double.pt_x pos) (Double.rightEdge h j) = false)
  /\ (Double.leb (Double.pt_x pos)
        (Double.rightEdge h (Z.to_nat (Double.roleIndexAt h pos))) = true
      \/ Double.roleIndexAt h pos
         = Z.of_nat (length (Double.m_visibleRoles h)) - 1).
Proof.
  intros Hne.
  destruct (double_roleIndexAt_spec h pos Hne) as (j & Hlt & -> & Hbelow & Hstop).
  rewrite Nat2Z.id. split; [lia|]. split.
  - intros j' Hj'. apply Hbelow. lia.
  - destruct Hstop as [Hstop | Hstop]; [by left | right; lia].
Qed.

Lemma double_roleIndexAt_first_reaching_witness :
  0 <= Double.roleIndexAt Double.exTenths (Double.at_x Double.threeTenthsUp) < 3
  /\ (forall j : nat,
        Z.of_nat j < Double.roleIndexAt Double.exTenths
                       (Double.at_x Double.threeTenthsUp) ->
        Double.leb Double.threeTenthsUp (Double.rightEdge Double.exTenths j) = false)
  /\ (Double.leb Double.threeTenthsUp
        (Double.rightEdge Double.exTenths
           (Z.to_nat (Double.roleIndexAt Double.exTenths
                        (Double.at_x Double.threeTenthsUp)))) = true
      \/ Double.roleIndexAt Double.exTenths (Double.at_x Double.threeTenthsUp)
         = 3 - 1).
Proof.
  apply (double_roleIndexAt_first_reaching Double.exTenths
           (Double.at_x Double.threeTenthsUp)).
  discriminate.
Defined.

Lemma double_roleIndexAt_loop_app (widths : gmap string spec_float)
    (p : spec_float) (roles more : list string) (index : Z) (x : spec_float) :
  roles <> [] ->
  Double.leb p (Double.sumFrom x (map (Double.value widths) roles)) = true ->
  Double.roleIndexAt_loop widths p (roles ++ more) index x
  = Double.roleIndexAt_loop widths p roles index x.
Proof.
  revert index x.
  induction roles as [|role rest IH]; intros index x Hne Hp; [done|].
  simpl. destruct (Double.leb p (Double.add x (Double.value widths role))) eqn:E;
    [done|].
  destruct rest as [|role' rest']; [simpl in Hp; congruence|].
  apply IH; [done | exact Hp].
Qed.

(** X3.  Roles appended to a non-empty list of visible roles do not change
    what [roleIndexAt] returns for a pointer at or left of the total width
    of the present columns, the total being the sum the code accumulates in
    double arithmetic. *)
Theorem double_roleIndexAt_append (h : Double.KItemListHeader)
    (pos : Double.QPointF) (more : list string) :
  Double.m_visibleRoles h <> [] ->
  Double.leb (Double.pt_x pos) (Double.totalWidth h) = true ->
  Double.roleIndexAt
    (Double.setVisibleRoles h (Double.m_visibleRoles h ++ more)).1 pos
  = Double.roleIndexAt h pos.
Proof.
  intros Hne Hp. unfold Double.roleIndexAt. simpl.
  by apply double_roleIndexAt_loop_app.
Qed.

Lemma double_roleIndexAt_append_witness :
  Double.roleIndexAt
    (Double.setVisibleRoles Double.exHeader
       (Double.m_visibleRoles Double.exHeader ++ ["E"])).1
    (Double.at_x (Double.of_int 100))
  = Double.roleIndexAt Double.exHeader (Double.at_x (Double.of_int 100)).
Proof.
  apply (double_roleIndexAt_append Double.exHeader
           (Double.at_x (Double.of_int 100)) ["E"]);
    [discriminate | reflexivity].
Defined.

(** With the widths 1e16, 1, 1 the accumulated total is 1e16: the pointer
    at 1e16 + 2 is right of it, and the appended role is hit instead of the
    former last one. *)
Example double_roleIndexAt_append_rounding :
  Double.totalWidth Double.exLarge = Double.of_int 10000000000000000
  /\ Double.roleIndexAt Double.exLarge
       (Double.at_x (Double.of_int 10000000000000002)) = 2
  /\ Double.roleIndexAt
       (Double.setVisibleRoles Double.exLarge
          (Double.m_visibleRoles Double.exLarge ++ ["E"])).1
       (Double.at_x (Double.of_int 10000000000000002)) = 3.
Proof. repeat split; reflexivity. Qed.

(** ** Resize grip and cursor *)

(** Inside the list the loop of [isAboveRoleGrip] accumulates the widths of
    the [n] columns from [i] on. *)
Lemma double_isAboveRoleGrip_loop_sum (h : Double.KItemListHeader) (n i : nat)
    (x : spec_float) :
  (i + n <= length (Double.m_visibleRoles h))%nat ->
  Double.isAboveRoleGrip_loop h n i x
  = Some (Double.sumFrom x (take n (drop i (Double.widthsOf h)))).
Proof.
  revert i x. induction n as [|n IH]; intros i x Hlen.
  - by rewrite take_0.
  - destruct (lookup_lt_is_Some_2 (Double.m_visibleRoles h) i ltac:(lia))
      as [role Hrole].
    simpl. rewrite Hrole, IH by lia.
    assert (Hw : Double.widthsOf h !! i
                 = Some (Double.value (Double.m_visibleRolesWidths h) role)).
    { unfold Double.widthsOf. change (map ?f ?l) with (f <$> l).
      by rewrite list_lookup_fmap, Hrole. }
    by rewrite (drop_S _ _ _ Hw).
Qed.

Lemma double_isAboveRoleGrip_at_valid (tk : Double.Toolkit)
    (h : Double.KItemListHeader) (pos : Double.QPointF) (i : Z) :
  Double.validIndex h i ->
  Double.isAboveRoleGrip tk h pos i
  = Some (Double.leb
            (Double.sub (Double.rightEdge h (Z.to_nat i))
                        (Double.of_int (Double.headerGripMargin tk)))
            (Double.pt_x pos)
          && Double.leb (Double.pt_x pos) (Double.rightEdge h (Z.to_nat i))).
Proof.
  intros [H0 Hlt]. unfold Double.isAboveRoleGrip, Double.rightEdge.
  rewrite double_isAboveRoleGrip_loop_sum by lia.
  rewrite drop_0.
  by replace (Z.to_nat (i + 1)) with (S (Z.to_nat i)) by lia.
Qed.

(** C2, as amended.  For a valid column index [i], [isAboveRoleGrip] is
    true exactly when [rightEdge i - grip margin <= x <= rightEdge i], where
    [rightEdge i] is the sum of the widths of the columns 0..i as the code
    accumulates it in double arithmetic, and the difference and the
    comparisons are those of doubles. *)
Theorem double_isAboveRoleGrip_iff (tk : Double.Toolkit)
    (h : Double.KItemListHeader) (pos : Double.QPointF) (i : Z) :
  Double.validIndex h i ->
  exists b : bool,
    Double.isAboveRoleGrip tk h pos i = Some b /\
    (b = true <->
     Double.leb (Double.sub (Double.rightEdge h (Z.to_nat i))
                            (Double.of_int (Double.headerGripMargin tk)))
                (Double.pt_x pos) = true
     /\ Double.leb (Double.pt_x pos) (Double.rightEdge h (Z.to_nat i)) = true).
Proof.
  intros Hv. eexists. split; [by apply double_isAboveRoleGrip_at_valid|].
  apply andb_true_iff.
Qed.

Lemma double_isAboveRoleGrip_iff_witness :
  exists b : bool,
    Double.isAboveRoleGrip Double.exToolkit Double.exHeader
      (Double.at_x (Double.of_int 46)) 0 = Some b /\
    (b = true <->
     Double.leb (Double.sub (Double.rightEdge Double.exHeader (Z.to_nat 0))
                            (Double.of_int (Double.headerGripMargin Double.exToolkit)))
                (Double.of_int 46) = true
     /\ Double.leb (Double.of_int 46)
          (Double.rightEdge Double.exHeader (Z.to_nat 0)) = true).
Proof.
  apply (double_isAboveRoleGrip_iff Double.exToolkit Double.exHeader
           (Double.at_x (Double.of_int 46)) 0).
  split; [lia | reflexivity].
Defined.

(** The numbers of the specification: grip margin 4, first column of
    width 50. *)
Example double_isAboveRoleGrip_46_to_50 :
  map (fun x => Double.isAboveRoleGrip Double.exToolkit Double.exHeader
                  (Double.at_x (Double.of_int x)) 0)
      [45; 46; 47; 48; 49; 50; 51]
  = [Some false; Some true; Some true; Some true; Some true; Some true;
     Some false].
Proof. reflexivity. Qed.

(** C2, as stated, fails when the sum is the exact one.  With the widths
    0.1 and 0.2, the index 1 and the grip margin 4, the pointer at
    0.30000000000000004 is above the grip, though it is right of the exact
    sum of the two widths: the sum the code accumulates rounds onto the
    pointer position. *)
Lemma double_isAboveRoleGrip_counterexample :
  Double.validIndex Double.exTenths 1
  /\ Double.widthsOf Double.exTenths = [Double.tenth; Double.fifth; Double.zero]
  /\ Double.isDouble Double.tenth = true
  /\ Double.isDouble Double.fifth = true
  /\ Double.isDouble Double.threeTenthsUp = true
  /\ Double.isAboveRoleGrip Double.exToolkit Double.exTenths
       (Double.at_x Double.threeTenthsUp) 1 = Some true
  /\ ~ (Double.toQ Double.threeTenthsUp
        <= Double.toQ Double.tenth + Double.toQ Double.fifth)%Q.
Proof.
  split; [split; [lia | reflexivity]|].
  do 5 (split; [reflexivity|]).
  intros H. apply Qle_bool_iff in H. vm_compute in H. discriminate.
Qed.

Lemma double_updateHoveredRoleIndex_members (h : Double.KItemListHeader)
    (pos : Double.QPointF) :
  Double.m_hoveredRoleIndex (Double.updateHoveredRoleIndex h pos).1
  = Double.roleIndexAt h pos
  /\ Double.m_visibleRoles (Double.updateHoveredRoleIndex h pos).1
     = Double.m_visibleRoles h
  /\ Double.m_visibleRolesWidths (Double.updateHoveredRoleIndex h pos).1
     = Double.m_visibleRolesWidths h.
Proof.
  unfold Double.updateHoveredRoleIndex.
  destruct (Double.m_hoveredRoleIndex h =? Double.roleIndexAt h pos) eqn:E;
    simpl; [|done].
  apply Z.eqb_eq in E. done.
Qed.

(** X6.  [hoverMoveEvent] updates the hovered index as [hoverEnterEvent]
    does and then sends exactly one cursor request: the split cursor when a
    column is under the pointer and [rightEdge - grip margin <= x <=
    rightEdge] holds for that column in double arithmetic, and the request
    to unset the cursor otherwise. *)
Theorem double_hoverMoveEvent_cursor (tk : Double.Toolkit)
    (h : Double.KItemListHeader) (pos : Double.QPointF) :
  exists cursor : Request,
    Double.hoverMoveEvent tk h pos
    = Some ((Double.hoverEnterEvent h pos).1,
            (Double.hoverEnterEvent h pos).2 ++ [cursor])
    /\ (cursor = SetCursorSplitH \/ cursor = UnsetCursor)
    /\ (cursor = SetCursorSplitH <->
        0 <= Double.roleIndexAt h pos
        /\ Double.leb
             (Double.sub (Double.rightEdge h (Z.to_nat (Double.roleIndexAt h pos)))
                         (Double.of_int (Double.headerGripMargin tk)))
             (Double.pt_x pos) = true
        /\ Double.leb (Double.pt_x pos)
             (Double.rightEdge h (Z.to_nat (Double.roleIndexAt h pos))) = true).
Proof.
  unfold Double.hoverMoveEvent, Double.hoverEnterEvent.
  destruct (double_updateHoveredRoleIndex_members h pos) as (Hi & Hr & Hw).
  destruct (Double.updateHoveredRoleIndex h pos) as [h' rs]. simpl in *.
  rewrite Hi.
  destruct (0 <=? Double.roleIndexAt h pos) eqn:E.
  - apply Z.leb_le in E.
    rewrite double_isAboveRoleGrip_at_valid.
    2: { pose proof (double_roleIndexAt_bounds h pos).
         unfold Double.validIndex. rewrite Hr. lia. }
    assert (Hedge : Double.rightEdge h' (Z.to_nat (Double.roleIndexAt h pos))
                    = Double.rightEdge h (Z.to_nat (Double.roleIndexAt h pos)))
      by (unfold Double.rightEdge, Double.widthsOf; by rewrite Hr, Hw).
    rewrite Hedge.
    destruct (Double.leb _ _ && Double.leb _ _) eqn:Hb.
    + apply andb_true_iff in Hb.
      exists SetCursorSplitH. split; [done|]. split; [by left|]. tauto.
    + exists UnsetCursor. split; [done|]. split; [by right|].
      split; [done|]. intros (_ & H1 & H2).
      rewrite H1, H2 in Hb. done.
  - apply Z.leb_gt in E.
    exists UnsetCursor. split; [done|]. split; [by right|].
    split; [done | intros [H0 _]; lia].
Qed.

(** At 0.30000000000000004 over the widths 0.1, 0.2 the second column is
    hovered and the pointer is on its grip. *)
Example double_hoverMoveEvent_rounding :
  Double.hoverMoveEvent Double.exToolkit Double.exTenths
    (Double.at_x Double.threeTenthsUp)
  = Some (Double.set_hoveredRoleIndex Double.exTenths 1,
          [Update; SetCursorSplitH]).
Proof. reflexivity. Qed.

Example double_hoverMoveEvent_right_of_boundary :
  Double.hoverMoveEvent Double.exToolkit Double.exHeader
    (Double.at_x (Double.of_int 51))
  = Some (Double.set_hoveredRoleIndex Double.exHeader 1, [Update; UnsetCursor]).
Proof. reflexivity. Qed.

(** ** What [paint] paints *)

(** The loop of [paint] with a model: one operation per role, each the
    result of [paintRole] on the rectangle that starts at the sum
    accumulated so far; the final [x] is the sum of all widths. *)
Lemma double_paint_loop_spec (tk : Double.Toolkit) (h : Double.KItemListHeader)
    (roles : list string) (x : spec_float) (orderIndex : Z) :
  is_Some (Double.m_model h) ->
  exists ops : list PaintOp,
    Double.paint_loop tk h roles x orderIndex
    = Some (ops, Double.sumFrom x
                   (map (Double.value (Double.m_visibleRolesWidths h)) roles))
    /\ length ops = length roles
    /\ (forall (i : nat) (role : string),
          roles !! i = Some role ->
          ops !! i
          = Double.paintRole tk h role
              (Double.mkQRectF
                 (Double.sumFrom x
                    (take i (map (Double.value (Double.m_visibleRolesWidths h))
                               roles)))
                 Double.zero
                 (Double.value (Double.m_visibleRolesWidths h) role)
                 (Double.size_height tk))
              (orderIndex + Z.of_nat i)).
Proof.
  intros [m Hm]. revert x orderIndex.
  induction roles as [|role rest IH]; intros x orderIndex.
  - exists []. split; [done|]. split; [done|].
    intros i r Hr. by rewrite lookup_nil in Hr.
  - destruct (IH (Double.add x (Double.value (Double.m_visibleRolesWidths h) role))
                (orderIndex + 1)) as (ops & Hloop & Hlen & Hops).
    simpl Double.paint_loop. rewrite Hloop.
    destruct (Double.paintRole tk h role
                (Double.mkQRectF x Double.zero
                   (Double.value (Double.m_visibleRolesWidths h) role)
                   (Double.size_height tk))
                orderIndex) as [op|] eqn:Hop.
    2: { unfold Double.paintRole in Hop. by rewrite Hm in Hop. }
    exists (op :: ops). split; [done|]. split; [simpl; lia|].
    intros [|i] r Hr; simpl in Hr.
    + injection Hr as <-.
      replace (orderIndex + Z.of_nat 0) with orderIndex by lia.
      rewrite take_0. change (Double.sumFrom x []) with x.
      by rewrite Hop.
    + change (take (S i) (map ?f (role :: rest)))
        with (f role :: take i (map f rest)).
      change (Double.sumFrom x (?w :: ?l))
        with (Double.sumFrom (Double.add x w) l).
      replace (orderIndex + Z.of_nat (S i)) with (orderIndex + 1 + Z.of_nat i)
        by lia.
      exact (Hops i r Hr).
Qed.

(** X15.  When [paint] is defined and a model is set, its operation number
    [2 + i] is what [paintRole] gives for the [i]-th visible role, the
    order index [i] and the rectangle that starts at the sum of the widths
    of the roles before it, as the code accumulates it in double
    arithmetic, and has the role's width and the height of the widget. *)
Theorem double_paint_section (tk : Double.Toolkit) (h : Double.KItemListHeader)
    (ops : list PaintOp) (i : nat) (role : string) :
  is_Some (Double.m_model h) ->
  Double.paint tk h = Some ops ->
  Double.m_visibleRoles h !! i = Some role ->
  ops !! (2 + i)%nat
  = Double.paintRole tk h role
      (Double.mkQRectF (Double.leftEdge h i) Double.zero
         (Double.value (Double.m_visibleRolesWidths h) role)
         (Double.size_height tk))
      (Z.of_nat i).
Proof.
  intros Hm Hpaint Hrole.
  destruct (double_paint_loop_spec tk h (Double.m_visibleRoles h) Double.zero 0 Hm)
    as (ops0 & Hloop & Hlen & Hops).
  unfold Double.paint in Hpaint. destruct Hm as [m Hm].
  rewrite Hm, Hloop in Hpaint.
  destruct (Double.to_int _) as [rx|]; [|done].
  destruct (Double.to_int _) as [rw|]; [|done].
  destruct (Double.to_int _) as [rh|]; [|done].
  injection Hpaint as <-.
  simpl. rewrite lookup_app_l by (apply lookup_lt_Some in Hrole; lia).
  by rewrite (Hops i role Hrole).
Qed.

Lemma double_paint_section_witness :
  default [] (Double.paint Double.exToolkit Double.exTenths) !! (2 + 2)%nat
  = Double.paintRole Double.exToolkit Double.exTenths "D"
      (Double.mkQRectF (Double.leftEdge Double.exTenths 2) Double.zero
         (Double.value (Double.m_visibleRolesWidths Double.exTenths) "D")
         (Double.size_height Double.exToolkit))
      (Z.of_nat 2).
Proof.
  apply (double_paint_section Double.exToolkit Double.exTenths
           (default [] (Double.paint Double.exToolkit Double.exTenths)) 2 "D");
    [by eexists | reflexivity | reflexivity].
Defined.

(** The rectangle of the third section over the widths 0.1, 0.2 starts at
    the double 0.30000000000000004. *)
Example double_leftEdge_rounding :
  Double.leftEdge Double.exTenths 2 = Double.threeTenthsUp.
Proof. reflexivity. Qed.



(** The empty area of the running example, in a widget of width 200 and
    in one of width 80, where its width is negative. *)
Example double_paint_empty_area_exHeader :
  default [] (Double.paint Double.exToolkit Double.exHeader) !! 5%nat
  = Some (DrawHeaderEmptyArea (mkQRect 100 0 100 24))
  /\ default [] (Double.paint Double.exToolkitNarrow Double.exHeader) !! 5%nat
     = Some (DrawHeaderEmptyArea (mkQRect 100 0 (-20) 24)).
Proof. split; reflexivity. Qed.

(** A column or a widget of width 3e9 does not convert to an [int]:
    [paint] is undefined. *)
Example double_paint_undefined :
  Double.to_int (Double.of_int 3000000000) = None
  /\ Double.paint Double.exToolkit Double.exWide = None
  /\ Double.paint Double.exToolkitHuge Double.exHeader = None.
Proof. repeat split; reflexivity. Qed.
